(** * build_heatmap: colour ranges, legends and the client-side controller

    A shallow embedding of [build_heatmap.py].  The Python build stage
    (per-metric ranges, palettes, legends, precomputed feature colours) and
    the JavaScript controller emitted by the script (layer toggling,
    recolouring, hover handlers, legend swapping) are both modelled.

    Numbers: Python floats are idealised as rationals ([Q]); a missing
    observation (NaN / None) is [None].  Infinities are not modelled.
    Two places are kept at machine precision, because the behaviour of the
    program depends on it: the sum [vmin + 1.0] of [robust_range], which is
    rounded to binary64, and the cast [.astype(int)] of the rate ticks,
    which is a conversion to int64. *)

From Stdlib Require Import QArith Qround Qabs Lqa Ascii String Sorted.
From stdpp Require Import gmap strings list.

Local Open Scope Q_scope.

(** ** Small numeric helpers *)

Definition Qlt_bool (a b : Q) : bool := negb (Qle_bool b a).

(** Python's [max(a, b)]: the first argument is kept unless the second one
    is strictly greater. *)
Definition py_max (a b : Q) : Q := if Qlt_bool a b then b else a.

(** Python's [int(v)] on a float: truncation towards zero. *)
Definition py_int (v : Q) : Z :=
  if Qlt_bool v 0 then Qceiling v else Qfloor v.

(** [np.round] / [rint]: round to the nearest integer, ties to even. *)
Definition round_half_even (x : Q) : Z :=
  let f := Qfloor x in
  let d := x - inject_Z f in
  if Qlt_bool d (1 # 2) then f
  else if Qlt_bool (1 # 2) d then (f + 1)%Z
  else if Z.even f then f else (f + 1)%Z.

(** The result of [np.round] is a float holding an integer; its sign bit is
    the one of the argument, so that values in [-0.5, 0) give [-0.0]. *)
Record rounded := Rounded { signbit : bool; magnitude : N }.

Definition np_round (x : Q) : rounded :=
  Rounded (Qlt_bool x 0) (Z.abs_N (round_half_even x)).

(** The integer that such a float holds. *)
Definition rounded_value (r : rounded) : Z :=
  if signbit r then (- Z.of_N (magnitude r))%Z else Z.of_N (magnitude r).

Definition INT64_MIN : Z := (- 2 ^ 63)%Z.
Definition INT64_MAX : Z := (2 ^ 63 - 1)%Z.

(** [.astype(int)] on such a float: the conversion of a float64 to an
    int64.  A value that no int64 holds is converted to the least int64,
    which is what the conversion gives on x86-64. *)
Definition astype_int (r : rounded) : Z :=
  let v := rounded_value r in
  if (INT64_MIN <=? v)%Z && (v <=? INT64_MAX)%Z then v else INT64_MIN.

(** ** Binary64 rounding *)

Module Binary64.

(** [2 ** k] for an integer [k] of either sign. *)
Definition pow2 (k : Z) : Q :=
  if (0 <=? k)%Z then inject_Z (2 ^ k) else / inject_Z (2 ^ (- k)).

(** The binary exponent of a positive number: the [e] with
    [2 ** e <= x < 2 ** (e + 1)]. *)
Definition ilog2 (x : Q) : Z :=
  if Qle_bool 1 x then Z.log2 (Qfloor x)
  else (- Z.log2_up (Qceiling (/ x)))%Z.

(** A binary64 number has a significand of 53 bits; the least exponent of
    a normal number is -1022, and a smaller number keeps the spacing of
    that exponent. *)
Definition prec : Z := 53.
Definition emin : Z := (-1022).

(** The distance between the binary64 numbers around [x]. *)
Definition ulp (x : Q) : Q :=
  pow2 (Z.max (ilog2 (Qabs x)) emin - (prec - 1)).

(** The binary64 number nearest to [x], ties to the even significand.
    There is no overflow case: the only sum that is rounded is that of a
    finite binary64 number and 1.0, which stays below the overflow
    threshold. *)
Definition round (x : Q) : Q :=
  if Qeq_bool x 0 then 0
  else inject_Z (round_half_even (x / ulp x)) * ulp x.

(** The float sum [x + y]. *)
Definition add (x y : Q) : Q := round (x + y).

End Binary64.

(** ** RangeCalculator: [robust_range] *)

Module Range.

(** [pd.Series(series).dropna().to_numpy()] *)
Definition dropna (series : list (option Q)) : list Q := omap id series.

Fixpoint insert_sorted (x : Q) (l : list Q) : list Q :=
  match l with
  | [] => [x]
  | y :: l' => if Qle_bool x y then x :: l else y :: insert_sorted x l'
  end.

(** The sorted copy of the data on which numpy takes order statistics. *)
Definition sort (l : list Q) : list Q := foldr insert_sorted [] l.

Definition item (arr : list Q) (i : Z) : Q := nth (Z.to_nat i) arr 0.

(** numpy's [_lerp]. *)
Definition lerp (a b t : Q) : Q := a + (b - a) * t.

(** [np.nanquantile(arr, q)] with the default (linear) method on a
    non-empty array without NaN: virtual index [(n - 1) * q], neighbours
    [floor] and [floor + 1] clipped to the array, linear interpolation.
    Where the index is clipped the two neighbours are the same entry, so
    the weight has no effect there. *)
Definition nanquantile (arr : list Q) (q : Q) : Q :=
  let sorted := sort arr in
  let n := Z.of_nat (length arr) in
  let virtual := inject_Z (n - 1) * q in
  let prev := Qfloor virtual in
  let next := (prev + 1)%Z in
  let above := Qle_bool (inject_Z (n - 1)) virtual in
  let below := Qlt_bool virtual 0 in
  let prev_i := if above then (n - 1)%Z else if below then 0%Z else prev in
  let next_i := if above then (n - 1)%Z else if below then 0%Z else next in
  lerp (item sorted prev_i) (item sorted next_i) (virtual - inject_Z prev).

Definition robust_range (series : list (option Q)) (is_rate : bool) : Q * Q :=
  let arr := dropna series in
  if (length arr =? 0)%nat then (0, 1)
  else
    let vmin := nanquantile arr (3 # 1000) in
    let vmax := nanquantile arr (997 # 1000) in
    if is_rate then
      let vmin := py_max 0 vmin in
      let vmax := py_max (Binary64.add vmin 1) vmax in
      (vmin, vmax)
    else (vmin, vmax).

End Range.

(** ** Text formatting helpers *)

Local Open Scope string_scope.

Definition digit_char (d : Z) : ascii :=
  nth (Z.to_nat d) (list_ascii_of_string "0123456789abcdef") "?"%char.

(** Digits of a non-negative integer, most significant first. *)
Fixpoint digits_aux (base : Z) (fuel : nat) (n : Z) (acc : string) : string :=
  let acc' := String (digit_char (n mod base)) acc in
  match fuel with
  | O => acc'
  | S fuel' => if (n <? base)%Z then acc' else digits_aux base fuel' (n / base) acc'
  end.

Definition digits (base : Z) (n : Z) : string :=
  digits_aux base (Z.to_nat n) n "".

(** [f"{t:d}"] and [str(y)] on an integer. *)
Definition format_d (t : Z) : string :=
  if (t <? 0)%Z then "-" ++ digits 10 (- t) else digits 10 t.

(** ['%02x' % n]: lower-case hexadecimal, zero-padded to two characters. *)
Definition format_02x (n : Z) : string :=
  if (n <? 0)%Z then "-" ++ digits 16 (- n)
  else let body := digits 16 n in
       if (String.length body <? 2)%nat then "0" ++ body else body.

(** [f"{t:.2f}"] on a float that is [np.round(..) / 2.0]: a signed count of
    half units.  The division by two is exact in binary floating point, so
    the printed decimals are exactly [00] or [50]. *)
Definition format_2f_halves (r : rounded) : string :=
  (if signbit r then "-" else "")
  ++ digits 10 (Z.of_N (magnitude r) / 2)
  ++ "."
  ++ (if N.odd (magnitude r) then "50" else "00").

(** Groups of three digits separated by commas, as [f"{n:,}"] prints them. *)
Fixpoint group3 (rev_digits : list ascii) : list ascii :=
  match rev_digits with
  | a :: b :: c :: ((_ :: _) as rest) => a :: b :: c :: ","%char :: group3 rest
  | _ => rev_digits
  end.

Definition format_commas (n : Z) : string :=
  let body := digits 10 (Z.abs n) in
  let grouped := string_of_list_ascii (rev (group3 (rev (list_ascii_of_string body)))) in
  if (n <? 0)%Z then "-" ++ grouped else grouped.

(** ** ColorMapper: the palette *)

Module Palette.

(** Modelled from the spec: the colormap [linear.RdYlGn_11] of the branca
    library, which the script imports and which is not part of the
    repository.  The spec describes it as a fixed diverging
    red-yellow-green ramp of 11 stops that is rescaled to a metric's
    domain, interpolated linearly between neighbouring stops and constant
    (saturating) outside the domain.  The stop colours, the rounding of a
    channel to a byte and the [#rrggbbaa] text of a colour are the
    library's.  A colour is four channels in [0, 1]. *)
Definition rgba : Type := Q * Q * Q * Q.

(** Modelled from the spec: a stop colour given by its three bytes, fully
    opaque. *)
Definition parse_rgb (r g b : Z) : rgba :=
  (inject_Z r / 255, inject_Z g / 255, inject_Z b / 255, 1)%Q.

(** Modelled from the spec: the 11 stops of the ramp, from red through
    yellow to green. *)
Definition RdYlGn_11 : list rgba :=
  [ parse_rgb 165 0 38;    parse_rgb 215 48 39;   parse_rgb 244 109 67;
    parse_rgb 253 174 97;  parse_rgb 254 224 139; parse_rgb 255 255 191;
    parse_rgb 217 239 139; parse_rgb 166 217 106; parse_rgb 102 189 99;
    parse_rgb 26 152 80;   parse_rgb 0 104 55 ].

(** Modelled from the spec: a colormap is its stop colours and the
    positions of the stops in the domain. *)
Record LinearColormap := { colors : list rgba; index : list Q }.

Definition black : rgba := (0, 0, 0, 0)%Q.

(** Modelled from the spec: [linear.RdYlGn_11.scale(vmin, vmax)], the
    rescaling of the ramp to a domain: stop [i] of 11 sits at
    [vmin + (vmax - vmin) * i / 10]. *)
Definition scale (vmin vmax : Q) : LinearColormap :=
  {| colors := RdYlGn_11;
     index := map (fun i : nat => vmin + (vmax - vmin) * (inject_Z (Z.of_nat i) / 10))%Q
                  (seq 0 11) |}.

(** Modelled from the spec: the linear mix of two neighbouring stops. *)
Definition mix (p : Q) (c0 c1 : rgba) : rgba :=
  let '(r0, g0, b0, a0) := c0 in
  let '(r1, g1, b1, a1) := c1 in
  ((1 - p) * r0 + p * r1, (1 - p) * g0 + p * g1,
   (1 - p) * b0 + p * b1, (1 - p) * a0 + p * a1)%Q.

(** Modelled from the spec: the colour lookup.  Values at or below the
    first stop take the first colour, values at or above the last stop the
    last colour (saturation at the edges); in between, the two
    neighbouring stops are mixed linearly.  [None] stands for the
    library's error on thresholds that are not sorted. *)
Definition rgba_floats_tuple (cm : LinearColormap) (x : Q) : option rgba :=
  let idx := index cm in
  let cols := colors cm in
  if Qle_bool x (nth 0 idx 0%Q) then Some (nth 0 cols black)
  else if Qle_bool (List.last idx 0%Q) x then Some (List.last cols black)
  else
    let i := length (List.filter (fun u => Qlt_bool u x) idx) in
    let lo := nth (i - 1) idx 0%Q in
    let hi := nth i idx 0%Q in
    if Qlt_bool lo hi then
      Some (mix ((x - lo) / (hi - lo))%Q (nth (i - 1) cols black) (nth i cols black))
    else if Qeq_bool lo hi then
      Some (mix 1%Q (nth (i - 1) cols black) (nth i cols black))
    else None.

(** Modelled from the spec: a channel as a byte, [int(u * 255.9999)]. *)
Definition channel_byte (u : Q) : Z := py_int (u * (2559999 # 10000))%Q.

(** Modelled from the spec: the colour as four bytes. *)
Definition rgba_bytes_tuple (cm : LinearColormap) (x : Q) : option (Z * Z * Z * Z) :=
  match rgba_floats_tuple cm x with
  | Some (r, g, b, a) =>
      Some (channel_byte r, channel_byte g, channel_byte b, channel_byte a)
  | None => None
  end.

(** Modelled from the spec: the colour as the text [#rrggbbaa]. *)
Definition rgba_hex_str (cm : LinearColormap) (x : Q) : option string :=
  match rgba_bytes_tuple cm x with
  | Some (r, g, b, a) =>
      Some ("#" ++ format_02x r ++ format_02x g ++ format_02x b ++ format_02x a)
  | None => None
  end.

(** Modelled from the spec: calling the colormap on a value, [palette(v)],
    gives the colour text. *)
Definition call (cm : LinearColormap) (x : Q) : option string := rgba_hex_str cm x.

End Palette.

(** ** LegendBuilder *)

Inductive Metric := avg_tip | med_tip | avg_rate.

Definition metrics : list Metric := [avg_tip; med_tip; avg_rate].

Definition metric_name (m : Metric) : string :=
  match m with
  | avg_tip => "avg_tip"
  | med_tip => "med_tip"
  | avg_rate => "avg_rate"
  end.

Module Legend.

(** [np.linspace(start, stop, num)]: [i * step + start] with
    [step = (stop - start) / (num - 1)], the last sample being set to
    [stop] itself when there are at least two. *)
Definition linspace (start stop : Q) (num : nat) : list Q :=
  let step := ((stop - start) / inject_Z (Z.of_nat (num - 1)))%Q in
  let y := map (fun i : nat => inject_Z (Z.of_nat i) * step + start)%Q (seq 0 num) in
  if (1 <? num)%nat then <[(num - 1)%nat := stop]> y else y.

(** The legend markup is kept as its three variable parts; the rest of the
    template is constant text. *)
Record legend_html := LegendHtml {
  caption : string;
  grad_css : string;
  labels : list string
}.

(** Money mode: [np.round(raw_ticks * 2) / 2.0], each tick held as its
    rounded count of half units. *)
Definition money_ticks (raw_ticks : list Q) : list rounded :=
  map (fun v => np_round (v * 2)%Q) raw_ticks.

Definition money_tick_value (r : rounded) : Q := (inject_Z (rounded_value r) / 2)%Q.

(** Rate mode: [np.round(raw_ticks).astype(int)]. *)
Definition rate_ticks (raw_ticks : list Q) : list Z :=
  map (fun v => astype_int (np_round v)) raw_ticks.

(** The values of the ticks, in either mode. *)
Definition tick_values (vmin vmax : Q) (n_ticks : nat) (money_mode : bool) : list Q :=
  let raw_ticks := linspace vmin vmax n_ticks in
  if money_mode then map money_tick_value (money_ticks raw_ticks)
  else map inject_Z (rate_ticks raw_ticks).

Definition tick_labels (vmin vmax : Q) (n_ticks : nat) (money_mode : bool) : list string :=
  let raw_ticks := linspace vmin vmax n_ticks in
  if money_mode then map format_2f_halves (money_ticks raw_ticks)
  else map format_d (rate_ticks raw_ticks).

Definition make_continuous_legend_html (caption : string) (vmin vmax : Q)
    (n_ticks : nat) (money_mode : bool) (palette : option Palette.LinearColormap)
    : option legend_html :=
  let palette := default (Palette.scale vmin vmax) palette in
  let grad_vals := linspace vmin vmax 64 in
  cols ← mapM (Palette.call palette) grad_vals;
  Some (LegendHtml caption (String.concat ", " cols)
                   (tick_labels vmin vmax n_ticks money_mode)).

End Legend.

(** ** SceneBuilder *)

Module Scene.

Definition YEARS : list Z := map (fun i : nat => (2015 + Z.of_nat i)%Z) (seq 0 8).

(** One row of a year's table, after the tooltip has been rendered. *)
Record Row := {
  row_avg_tip : option Q;
  row_med_tip : option Q;
  row_avg_rate : option Q;
  row_tooltip_html : string
}.

Definition metric_value (m : Metric) (r : Row) : option Q :=
  match m with
  | avg_tip => row_avg_tip r
  | med_tip => row_med_tip r
  | avg_rate => row_avg_rate r
  end.

Definition is_rate (m : Metric) : bool :=
  match m with avg_rate => true | _ => false end.

Section Build.

(** The tables read from the per-year files. *)
Variable gdfs : Z -> list Row.

(** [ranges[m]]: the range of metric [m] over all years together. *)
Definition ranges (m : Metric) : Q * Q :=
  let all_vals := concat (map (fun y => map (metric_value m) (gdfs y)) YEARS) in
  Range.robust_range all_vals (is_rate m).

Definition PALETTES (m : Metric) : Palette.LinearColormap :=
  Palette.scale (fst (ranges m)) (snd (ranges m)).

Definition legend_caption (m : Metric) : string :=
  match m with
  | avg_tip => "Average Tip ($)"
  | med_tip => "Median Tip ($)"
  | avg_rate => "Average Tip Rate (% of Fare)"
  end.

Definition legend_for_metric (m : Metric) : option Legend.legend_html :=
  Legend.make_continuous_legend_html (legend_caption m)
    (fst (ranges m)) (snd (ranges m)) 7 (negb (is_rate m)) (Some (PALETTES m)).

Definition NO_DATA_COLOR : string := "#cccccc".

(** The three bytes that [NO_DATA_COLOR] writes. *)
Definition NO_DATA_RGB : Z * Z * Z := (204, 204, 204)%Z.

Definition color_for (metric : Metric) (val : option Q) : option string :=
  match val with
  | None => Some NO_DATA_COLOR
  | Some v => Palette.call (PALETTES metric) v
  end.

Definition default_metric : Metric := avg_tip.
Definition default_year : Z := nth 0 YEARS 0%Z.

(** The [properties] of the feature built from a row. *)
Definition feature_properties (r : Row) : option (gmap string string) :=
  c_avg_tip ← color_for avg_tip (row_avg_tip r);
  c_med_tip ← color_for med_tip (row_med_tip r);
  c_avg_rate ← color_for avg_rate (row_avg_rate r);
  let cur_color :=
    match default_metric with
    | avg_tip => c_avg_tip | med_tip => c_med_tip | avg_rate => c_avg_rate
    end in
  Some (<["color_avg_tip" := c_avg_tip]>
        (<["color_med_tip" := c_med_tip]>
        (<["color_avg_rate" := c_avg_rate]>
        (<["cur_color" := cur_color]>
        (<["tooltip_html" := row_tooltip_html r]> ∅))))).

(** [style_fn]: the initial fill of a feature. *)
Definition style_fn (props : gmap string string) : string :=
  default "#cccccc" (props !! "cur_color").

End Build.

(** *** The trip-count column of a year's table *)

(** A table as its numeric columns by name.  [count_col] is the name
    chosen for the trip counts. *)
Definition count_col (gdf : gmap string (list (option Q))) : string :=
  if bool_decide (is_Some (gdf !! "num_trips")) then "num_trips" else "num_tips".

Definition format_trips (v : option Q) : string :=
  match v with
  | Some v => format_commas (py_int v)
  | None => "—"
  end.

(** [gdf["num_trips_s"]]; [None] when the chosen column does not exist. *)
Definition num_trips_s (gdf : gmap string (list (option Q))) : option (list string) :=
  col ← gdf !! count_col gdf;
  Some (map format_trips col).

End Scene.

(** ** ClientController: the script that runs in the page *)

Module Controller.

Local Close Scope Q_scope.
Local Set Warnings "-register-all".

(** What a hover handler does when it fires: the stroke style it sets. *)
Record stroke := Stroke { weight : Q; color : string; fillOpacity : Q }.

(** A map layer object.  A path (a drawn polygon) has [setStyle] and no
    [eachLayer]; a group has [eachLayer], and has [setStyle] when it is a
    feature group, which passes the call on to its children.  Either may
    carry a [feature] with properties.  [listeners] are the handlers
    registered with [on], in order. *)
Inductive Layer :=
  | Path (feature : option (gmap string string)) (fillColor : string)
         (listeners : list (string * stroke)) (_highlightBound : bool)
  | LayerGroup (feature : option (gmap string string)) (has_setStyle : bool)
         (layers : list Layer)
         (listeners : list (string * stroke)) (_highlightBound : bool).

Definition feature (l : Layer) : option (gmap string string) :=
  match l with Path f _ _ _ => f | LayerGroup f _ _ _ _ => f end.

Definition set_properties (props : gmap string string) (l : Layer) : Layer :=
  match l with
  | Path _ c ls b => Path (Some props) c ls b
  | LayerGroup _ s kids ls b => LayerGroup (Some props) s kids ls b
  end.

Definition listeners (l : Layer) : list (string * stroke) :=
  match l with Path _ _ ls _ => ls | LayerGroup _ _ _ ls _ => ls end.

(** The children that [eachLayer] visits. *)
Definition layers (l : Layer) : list Layer :=
  match l with Path _ _ _ _ => [] | LayerGroup _ _ kids _ _ => kids end.

Definition _highlightBound (l : Layer) : bool :=
  match l with Path _ _ _ b => b | LayerGroup _ _ _ _ b => b end.

Definition has_setStyle (l : Layer) : bool :=
  match l with Path _ _ _ _ => true | LayerGroup _ s _ _ _ => s end.

(** [featLayer.on(type, fn)] *)
Definition on (type : string) (fn : stroke) (l : Layer) : Layer :=
  match l with
  | Path f c ls b => Path f c (ls ++ [(type, fn)]) b
  | LayerGroup f s kids ls b => LayerGroup f s kids (ls ++ [(type, fn)]) b
  end.

Definition set_highlightBound (l : Layer) : Layer :=
  match l with
  | Path f c ls _ => Path f c ls true
  | LayerGroup f s kids ls _ => LayerGroup f s kids ls true
  end.

(** [l.setStyle({fillColor: fill})]: a path takes the colour; a feature
    group calls [setStyle] on every child that has it. *)
Fixpoint setStyle (fill : string) (l : Layer) : Layer :=
  match l with
  | Path f _ ls b => Path f fill ls b
  | LayerGroup f true kids ls b => LayerGroup f true (map (setStyle fill) kids) ls b
  | LayerGroup f false kids ls b => l
  end.

Fixpoint depth (l : Layer) : nat :=
  match l with
  | Path _ _ _ _ => 0
  | LayerGroup _ _ kids _ _ => S (foldr Nat.max 0 (map depth kids))
  end.

(** JavaScript's [v || d] on a property that is a string or is absent:
    the empty string and [undefined] give [d]. *)
Definition js_or (v : option string) (d : string) : string :=
  match v with
  | Some c => if decide (c = "") then d else c
  | None => d
  end.

(** The part of [applyToLayer] that recolours the layer itself. *)
Definition recolor_feature (colorProp : string) (l : Layer) : Layer :=
  match feature l with
  | Some props =>
      let fill := js_or (props !! colorProp) "#cccccc" in
      let l := if has_setStyle l then setStyle fill l else l in
      set_properties (<["cur_color" := fill]> props) l
  | None => l
  end.

(** [applyToLayer], the recursive walk inside [recolorLayerByMetric].  The
    recursion follows the children of the layer as they are after its own
    recolouring; [fuel] bounds the nesting that is walked. *)
Fixpoint applyToLayer (fuel : nat) (colorProp : string) (l : Layer) : Layer :=
  match fuel with
  | O => l
  | S fuel' =>
      match recolor_feature colorProp l with
      | LayerGroup f s kids ls b =>
          LayerGroup f s (map (applyToLayer fuel' colorProp) kids) ls b
      | Path f c ls b => Path f c ls b
      end
  end.

Definition recolorLayerByMetric (lyr : Layer) (metric : Metric) : Layer :=
  let colorProp := "color_" ++ metric_name metric in
  applyToLayer (S (depth lyr)) colorProp lyr.

Definition highlight : stroke := Stroke 2%Q "#000" (85 # 100)%Q.
Definition baseline : stroke := Stroke (2 # 10)%Q "#666" (7 # 10)%Q.

Definition bind_highlight (featLayer : Layer) : Layer :=
  if _highlightBound featLayer then featLayer
  else set_highlightBound (on "mouseout" baseline (on "mouseover" highlight featLayer)).

Definition attachHighlightHandlers (lyr : Layer) : Layer :=
  match lyr with
  | LayerGroup f s kids ls b => LayerGroup f s (map bind_highlight kids) ls b
  | Path _ _ _ _ => lyr
  end.

(** The properties of all the features in a layer, the layer's own first. *)
Fixpoint features (l : Layer) : list (gmap string string) :=
  match l with
  | Path f _ _ _ => option_list f
  | LayerGroup f _ kids _ _ => option_list f ++ flat_map features kids
  end.

(** The effect of the walk, by recursion on the layer: [pending] is the
    colour that a [setStyle] of an enclosing layer has pushed down to this
    one, if any.  [applyToLayer] with enough fuel computes this. *)
Definition opt_setStyle (pending : option string) (l : Layer) : Layer :=
  match pending with Some c => setStyle c l | None => l end.

Fixpoint paint (colorProp : string) (pending : option string) (l : Layer) : Layer :=
  match l with
  | Path f c ls b =>
      match f with
      | Some props =>
          let fill := js_or (props !! colorProp) "#cccccc" in
          Path (Some (<["cur_color" := fill]> props)) fill ls b
      | None => Path None (default c pending) ls b
      end
  | LayerGroup f s kids ls b =>
      match f with
      | Some props =>
          let fill := js_or (props !! colorProp) "#cccccc" in
          LayerGroup (Some (<["cur_color" := fill]> props)) s
            (map (paint colorProp (if s then Some fill else None)) kids) ls b
      | None =>
          LayerGroup None s
            (map (paint colorProp (if s then pending else None)) kids) ls b
      end
  end.

(** The page: the global layer variables, the layers attached to the map,
    the legend element, and what was written to the error console. *)
Record Page := {
  window : gmap string Layer;
  map_layers : gset string;
  legend : option Legend.legend_html;
  console : list (string * option string)
}.

Section Script.

Variable LEGEND_BY_METRIC : Metric -> Legend.legend_html.
Variable YEAR_TO_VARNAME : gmap string string.

Definition removeLegend (pg : Page) : Page :=
  {| window := window pg; map_layers := map_layers pg;
     legend := None; console := console pg |}.

Definition addLegend (metric : Metric) (pg : Page) : Page :=
  let pg := removeLegend pg in
  {| window := window pg; map_layers := map_layers pg;
     legend := Some (LEGEND_BY_METRIC metric); console := console pg |}.

Definition layerFromVar (pg : Page) (varName : string) : option Layer :=
  window pg !! varName.

Definition removeLayer (vname : string) (pg : Page) : Page :=
  {| window := window pg; map_layers := map_layers pg ∖ {[vname]};
     legend := legend pg; console := console pg |}.

Definition addLayer (vname : string) (pg : Page) : Page :=
  {| window := window pg; map_layers := map_layers pg ∪ {[vname]};
     legend := legend pg; console := console pg |}.

Definition set_layer (vname : string) (lyr : Layer) (pg : Page) : Page :=
  {| window := <[vname := lyr]> (window pg); map_layers := map_layers pg;
     legend := legend pg; console := console pg |}.

Definition console_error (year : string) (vname : option string) (pg : Page) : Page :=
  {| window := window pg; map_layers := map_layers pg;
     legend := legend pg; console := console pg ++ [(year, vname)] |}.

Definition hide_year (entry : string * string) (pg : Page) : Page :=
  let vname := entry.2 in
  match layerFromVar pg vname with
  | Some lyr => if bool_decide (vname ∈ map_layers pg) then removeLayer vname pg else pg
  | None => pg
  end.

Definition hideAllYears (pg : Page) : Page :=
  foldr hide_year pg (map_to_list YEAR_TO_VARNAME).

(** [showYearAndMetric].  The layer object is changed in place by the
    script; here the changed layer is written back under its name.  A year
    that is not a key of [YEAR_TO_VARNAME] gives the name [undefined],
    under which the page holds no layer. *)
Definition showYearAndMetric (metric : Metric) (year : string) (pg : Page) : Page :=
  let pg := hideAllYears pg in
  let vname := YEAR_TO_VARNAME !! year in
  let lyr := vname ≫= layerFromVar pg in
  match vname, lyr with
  | Some v, Some lyr =>
      let pg := addLayer v pg in
      let pg := set_layer v (recolorLayerByMetric lyr metric) pg in
      let pg := match layerFromVar pg v with
                | Some lyr => set_layer v (attachHighlightHandlers lyr) pg
                | None => pg
                end in
      addLegend metric pg
  | _, _ => console_error year vname pg
  end.

(** [vname] names the layer of some year. *)
Definition year_var (pg : Page) (vname : string) : Prop :=
  exists year : string,
    YEAR_TO_VARNAME !! year = Some vname /\ is_Some (window pg !! vname).

(** Every feature of every year layer on the map shows the colour that was
    precomputed for [metric]. *)
Definition view_consistent (metric : Metric) (pg : Page) : Prop :=
  forall (year vname : string) (lyr : Layer) (props : gmap string string),
    YEAR_TO_VARNAME !! year = Some vname ->
    vname ∈ map_layers pg ->
    window pg !! vname = Some lyr ->
    props ∈ features lyr ->
    props !! "cur_color" = props !! ("color_" ++ metric_name metric).

End Script.

(** The three precomputed colours of a feature are present and not empty. *)
Definition colors_present (props : gmap string string) : Prop :=
  forall m : Metric,
    exists c : string, props !! ("color_" ++ metric_name m) = Some c /\ c <> "".

Definition well_formed (pg : Page) : Prop :=
  forall (vname : string) (lyr : Layer) (props : gmap string string),
    window pg !! vname = Some lyr -> props ∈ features lyr -> colors_present props.

End Controller.

(** ** The generated page *)

Module Artifact.

Import Scene Controller.
Local Close Scope Q_scope.

Section Build.

Variable gdfs : Z -> list Row.

(** [fg.get_name()]: the name of the global variable that holds the
    feature group of a year. *)
Variable get_name : Z -> string.

(** The layer drawn for one row: a GeoJSON group with the polygon of the
    row as its only child, styled by [style_fn]. *)
Definition row_layer (r : Row) : option Layer :=
  props ← feature_properties gdfs r;
  Some (LayerGroup None true
          [Path (Some props) (style_fn props) [] false] [] false).

(** The feature group of a year. *)
Definition year_layer (y : Z) : option Layer :=
  kids ← mapM row_layer (gdfs y);
  Some (LayerGroup None true kids [] false).

Record artifact := {
  LEGEND_BY_METRIC : Metric -> Legend.legend_html;
  YEAR_TO_VARNAME : gmap string string;
  globals : gmap string Layer
}.

Definition build : option artifact :=
  l_avg_tip ← legend_for_metric gdfs avg_tip;
  l_med_tip ← legend_for_metric gdfs med_tip;
  l_avg_rate ← legend_for_metric gdfs avg_rate;
  fgs ← mapM (fun y => fg ← year_layer y; Some (y, fg)) YEARS;
  Some {| LEGEND_BY_METRIC := fun m =>
            match m with
            | avg_tip => l_avg_tip | med_tip => l_med_tip | avg_rate => l_avg_rate
            end;
          YEAR_TO_VARNAME :=
            foldl (fun d y => <[format_d y := get_name y]> d) ∅ YEARS;
          globals :=
            foldl (fun w yfg => <[get_name yfg.1 := yfg.2]> w) ∅ fgs |}.

End Build.

Definition init_metric : Metric := default_metric.
Definition init_year : string := format_d default_year.

(** The page as loaded, before the script has run: the legend of the
    default metric is in the document, and [shown] are the layers on the
    map. *)
Definition loaded (a : artifact) (shown : gset string) : Page :=
  {| window := globals a; map_layers := shown;
     legend := Some (LEGEND_BY_METRIC a default_metric); console := [] |}.

Definition enter (a : artifact) (sel : Metric * string) (pg : Page) : Page :=
  showYearAndMetric (LEGEND_BY_METRIC a) (YEAR_TO_VARNAME a) sel.1 sel.2 pg.

(** [wireControls], the boot transition: once the change handlers are
    registered on the radio buttons, the view that is checked on load, the
    default one, is entered. *)
Definition wireControls (a : artifact) (pg : Page) : Page :=
  enter a (init_metric, init_year) pg.

(** The page after the boot transition and a sequence of selections, each
    given as the metric and year that are checked when the event fires. *)
Definition run (a : artifact) (shown : gset string) (sels : list (Metric * string)) : Page :=
  foldl (fun pg sel => enter a sel pg) (wireControls a (loaded a shown)) sels.

(** The metric of the view entered last. *)
Definition active_metric (sels : list (Metric * string)) : Metric :=
  (List.last sels (init_metric, init_year)).1.

End Artifact.

(** ** Order of a list of numbers *)

Definition nondecreasing (l : list Q) : Prop :=
  forall (i j : nat) (x y : Q),
    (i <= j)%nat -> l !! i = Some x -> l !! j = Some y -> (x <= y)%Q.

(** ** Reading a label back *)

Definition is_digit (c : ascii) : bool :=
  existsb (Ascii.eqb c) (list_ascii_of_string "0123456789").

Definition all_digits (s : string) : bool :=
  forallb is_digit (list_ascii_of_string s).

Definition digit_value (c : ascii) : Z := (Z.of_nat (nat_of_ascii c) - 48)%Z.

(** The number written by a string of decimal digits. *)
Definition digits_value (s : string) : Z :=
  fold_left (fun v c => (10 * v + digit_value c)%Z) (list_ascii_of_string s) 0%Z.

Definition has_currency_marker (s : string) : bool :=
  existsb (Ascii.eqb "$"%char) (list_ascii_of_string s).




(** ** A rate series of one huge observation *)

Definition rate_1e16 : list (option Q) := [Some (inject_Z (10 ^ 16))].

(** ** Scenario A: one extreme outlier *)

Definition scenario_A : list (option Q) := [Some 3; Some 4; Some 5; Some 100]%Q.

(** [v] is nearer to [a] than to [b]. *)
Definition nearer (v a b : Q) : Prop := (Qabs (v - a) < Qabs (v - b))%Q.

(** ** A small page, for the examples *)

Definition demo_row (a b c : option Q) : Scene.Row :=
  {| Scene.row_avg_tip := a; Scene.row_med_tip := b; Scene.row_avg_rate := c;
     Scene.row_tooltip_html := "<div class='tipcard'></div>" |}.

Definition demo_gdfs (y : Z) : list Scene.Row :=
  if (y =? 2015)%Z then
    [demo_row (Some 3) (Some 2) (Some 15); demo_row None None None]%Q
  else if (y =? 2016)%Z then
    [demo_row (Some 4) (Some 3) (Some 18); demo_row (Some 5) None (Some 21)]%Q
  else [].

Definition demo_name (y : Z) : string := "feature_group_" ++ format_d y.

Definition demo_legend (m : Metric) : Legend.legend_html :=
  Legend.LegendHtml (metric_name m) "" [].

Definition demo_years : gmap string string :=
  {[ "2015" := "feature_group_2015" ]}.

Definition demo_layer : Controller.Layer :=
  Controller.LayerGroup None true
    [Controller.LayerGroup None true
       [Controller.Path
          (Some (<["color_avg_tip" := "#a50026ff"]>
                (<["color_med_tip" := "#006837ff"]>
                (<["color_avg_rate" := "#cccccc"]>
                (<["cur_color" := "#a50026ff"]> ∅)))))
          "#a50026ff" [] false] [] false] [] false.

Definition demo_page : Controller.Page :=
  {| Controller.window := {[ "feature_group_2015" := demo_layer ]};
     Controller.map_layers := {[ "feature_group_2015" ]};
     Controller.legend := Some (demo_legend avg_tip);
     Controller.console := [] |}.

(** ** Legend ends and separators *)

(** The tick and the label that the legend builder makes of one raw
    value. *)
Definition rounded_end (money_mode : bool) (v : Q) : Q :=
  if money_mode then Legend.money_tick_value (np_round (v * 2))%Q
  else inject_Z (astype_int (np_round v)).

Definition end_label (money_mode : bool) (v : Q) : string :=
  if money_mode then format_2f_halves (np_round (v * 2))%Q
  else format_d (astype_int (np_round v)).

Definition not_comma (c : ascii) : bool := negb (Ascii.eqb c ","%char).

(** A text with its commas taken out. *)
Definition strip_commas (s : string) : string :=
  string_of_list_ascii (List.filter not_comma (list_ascii_of_string s)).

(** ** What is drawn, and what is bound *)

(** The features that are drawn as paths of a layer, each with its
    properties and the fill colour the path has. *)
Fixpoint drawn (l : Controller.Layer) : list (gmap string string * string) :=
  match l with
  | Controller.Path (Some props) c _ _ => [(props, c)]
  | Controller.Path None _ _ _ => []
  | Controller.LayerGroup _ _ kids _ _ => flat_map drawn kids
  end.

(** A layer has no hover handler and is not marked as bound, or it is
    marked and has exactly the two handlers of [attachHighlightHandlers]. *)
Definition handlers_ok (k : Controller.Layer) : Prop :=
  (Controller._highlightBound k = false /\ Controller.listeners k = []) \/
  (Controller._highlightBound k = true /\
   Controller.listeners k
   = [("mouseover", Controller.highlight); ("mouseout", Controller.baseline)]).

(** What holds of every layer object of a page. *)
Definition every_layer (P : Controller.Layer -> Prop) (pg : Controller.Page) : Prop :=
  forall (v : string) (lyr : Controller.Layer),
    Controller.window pg !! v = Some lyr -> P lyr.

(** The five properties that the build gives a feature. *)
Definition property_names : gset string :=
  {[ "color_avg_tip"; "color_med_tip"; "color_avg_rate"; "cur_color"; "tooltip_html" ]}.

(** The year of the view entered last. *)
Definition active_year (sels : list (Metric * string)) : string :=
  (List.last sels (Artifact.init_metric, Artifact.init_year)).2.

(** ** The radio buttons *)

(** The values of the metric radios of the control panel, and of the year
    radios, one per year. *)
Definition metric_radio_values : list string := ["avg_tip"; "med_tip"; "avg_rate"].

Definition year_radio_values : list string := map format_d Scene.YEARS.

(** The radios of a group, each with its [checked] state. *)
Definition radios (values : list string) (checked : nat -> bool) : list (string * bool) :=
  imap (fun i v => (v, checked i)) values.

(** [curMetric] and [curYear]: the value of the first radio that is
    checked, or the initial value when none is. *)
Definition first_checked (rs : list (string * bool)) (init : string) : string :=
  match List.find (fun r => r.2) rs with
  | Some r => r.1
  | None => init
  end.

Definition curMetric (checked : nat -> bool) : string :=
  first_checked (radios metric_radio_values checked) (metric_name Artifact.init_metric).

Definition curYear (checked : nat -> bool) : string :=
  first_checked (radios year_radio_values checked) Artifact.init_year.

(** ** The help overlay *)

Module Help.

(** The events the help script listens to: clicks on its four elements and
    key presses anywhere in the document. *)
Inductive event :=
  | click_button | click_close | click_ok | click_backdrop
  | keydown (key : string).

(** One event.  [wired] says that the help button and the overlay were
    found when the page loaded; otherwise the script returns before it
    registers any handler.  The state is whether the overlay is displayed:
    [openHelp] sets it, [closeHelp] clears it. *)
Definition step (wired : bool) (displayed : bool) (e : event) : bool :=
  if wired then
    match e with
    | click_button => true
    | click_close | click_ok | click_backdrop => false
    | keydown key => if String.eqb key "Escape" then false else displayed
    end
  else displayed.

(** The overlay starts hidden. *)
Definition run (wired : bool) (events : list event) : bool :=
  foldl (step wired) false events.

(** An event that leaves the overlay as it is: a key other than Escape. *)
Definition idle (e : event) : bool :=
  match e with
  | keydown key => negb (String.eqb key "Escape")
  | _ => false
  end.

End Help.

(** * Properties *)

(** ** Arithmetic *)

Section Arithmetic.

Local Open Scope Q_scope.

Lemma Qlt_bool_true (a b : Q) : Qlt_bool a b = true <-> a < b.
Proof.
  unfold Qlt_bool. rewrite negb_true_iff.
  destruct (Qle_bool b a) eqn:E.
  - apply Qle_bool_iff in E. split; [discriminate | intros H; exfalso; lra].
  - split; [intros _ | reflexivity].
    destruct (Qlt_le_dec a b) as [H | H]; [exact H |].
    apply Qle_bool_iff in H. congruence.
Qed.

Lemma Qlt_bool_false (a b : Q) : Qlt_bool a b = false <-> b <= a.
Proof.
  destruct (Qlt_bool a b) eqn:E.
  - apply Qlt_bool_true in E. split; [discriminate | intros H; exfalso; lra].
  - split; [intros _ | reflexivity].
    destruct (Qlt_le_dec a b) as [H | H]; [| exact H].
    apply Qlt_bool_true in H. congruence.
Qed.

Lemma py_max_l (a b : Q) : a <= py_max a b.
Proof.
  unfold py_max. destruct (Qlt_bool a b) eqn:E; [| lra].
  apply Qlt_bool_true in E. lra.
Qed.

Lemma py_max_r (a b : Q) : b <= py_max a b.
Proof.
  unfold py_max. destruct (Qlt_bool a b) eqn:E; [lra |].
  apply Qlt_bool_false in E. exact E.
Qed.

Lemma floor_spec (x : Q) :
  inject_Z (Qfloor x) <= x /\ x < inject_Z (Qfloor x) + 1.
Proof.
  split; [apply Qfloor_le |].
  pose proof (Qlt_floor x) as H. rewrite inject_Z_plus in H. exact H.
Qed.

Lemma round_half_even_cases (x : Q) :
  (round_half_even x = Qfloor x /\ x - inject_Z (Qfloor x) <= 1 # 2) \/
  (round_half_even x = (Qfloor x + 1)%Z /\ 1 # 2 <= x - inject_Z (Qfloor x)).
Proof.
  unfold round_half_even.
  destruct (Qlt_bool (x - inject_Z (Qfloor x)) (1 # 2)) eqn:E1.
  { apply Qlt_bool_true in E1. left. split; [reflexivity | lra]. }
  apply Qlt_bool_false in E1.
  destruct (Qlt_bool (1 # 2) (x - inject_Z (Qfloor x))) eqn:E2.
  { right. split; [reflexivity | exact E1]. }
  apply Qlt_bool_false in E2.
  destruct (Z.even (Qfloor x)); [left | right]; (split; [reflexivity | assumption]).
Qed.

(** The rounded value is a nearest integer. *)
Lemma round_half_even_near (x : Q) :
  x - (1 # 2) <= inject_Z (round_half_even x) <= x + (1 # 2).
Proof.
  destruct (floor_spec x) as [Hlo Hhi].
  destruct (round_half_even_cases x) as [[-> H] | [-> H]].
  - lra.
  - rewrite inject_Z_plus. change (inject_Z 1) with 1. lra.
Qed.

Lemma round_half_even_mono (x y : Q) :
  x <= y -> (round_half_even x <= round_half_even y)%Z.
Proof.
  intros Hxy.
  pose proof (Qfloor_resp_le _ _ Hxy) as Hf.
  destruct (floor_spec x) as [Hxl Hxh], (floor_spec y) as [Hyl Hyh].
  destruct (Z.eq_dec (Qfloor x) (Qfloor y)) as [Heq | Hne].
  - unfold round_half_even. rewrite <- Heq.
    set (f := Qfloor x) in *.
    destruct (Qlt_bool (x - inject_Z f) (1 # 2)) eqn:Ex1;
      destruct (Qlt_bool (y - inject_Z f) (1 # 2)) eqn:Ey1;
      destruct (Qlt_bool (1 # 2) (x - inject_Z f)) eqn:Ex2;
      destruct (Qlt_bool (1 # 2) (y - inject_Z f)) eqn:Ey2;
      destruct (Z.even f);
      try lia;
      repeat match goal with
             | H : Qlt_bool _ _ = true |- _ => apply Qlt_bool_true in H
             | H : Qlt_bool _ _ = false |- _ => apply Qlt_bool_false in H
             end; exfalso; lra.
  - destruct (round_half_even_cases x) as [[-> _] | [-> _]];
      destruct (round_half_even_cases y) as [[-> _] | [-> _]]; lia.
Qed.

Lemma round_half_even_sign (x : Q) :
  (x < 0 -> (round_half_even x <= 0)%Z) /\ (0 <= x -> (0 <= round_half_even x)%Z).
Proof.
  split; intros H.
  - change 0%Z with (round_half_even 0). apply round_half_even_mono. lra.
  - change 0%Z with (round_half_even 0). apply round_half_even_mono. exact H.
Qed.

(** The sign bit and the magnitude of [np.round] together hold the value
    rounded half to even. *)
Lemma rounded_value_np_round (x : Q) : rounded_value (np_round x) = round_half_even x.
Proof.
  unfold rounded_value, np_round. simpl.
  destruct (round_half_even_sign x) as [Hneg Hpos].
  rewrite N2Z.inj_abs_N.
  destruct (Qlt_bool x 0) eqn:E.
  - apply Qlt_bool_true in E. specialize (Hneg E). lia.
  - apply Qlt_bool_false in E. specialize (Hpos E). lia.
Qed.

(** The cast of a rounded float: the rounded value when an int64 holds it,
    the least int64 otherwise. *)
Lemma astype_int_cases (x : Q) :
  ((INT64_MIN <= round_half_even x <= INT64_MAX)%Z /\
   astype_int (np_round x) = round_half_even x) \/
  (((round_half_even x < INT64_MIN)%Z \/ (INT64_MAX < round_half_even x)%Z) /\
   astype_int (np_round x) = INT64_MIN).
Proof.
  unfold astype_int. cbv zeta. rewrite rounded_value_np_round.
  destruct (INT64_MIN <=? round_half_even x)%Z eqn:E1;
    destruct (round_half_even x <=? INT64_MAX)%Z eqn:E2; simpl;
    [left | right ..]; split; try reflexivity; lia.
Qed.

Lemma astype_int_np_round (x : Q) :
  (INT64_MIN <= round_half_even x <= INT64_MAX)%Z ->
  astype_int (np_round x) = round_half_even x.
Proof.
  intros H. destruct (astype_int_cases x) as [[_ E] | [[H' | H'] _]]; [exact E | lia ..].
Qed.

(** Below the upper end of the int64 range the cast keeps the order. *)
Lemma astype_int_mono (x y : Q) :
  x <= y -> (round_half_even y <= INT64_MAX)%Z ->
  (astype_int (np_round x) <= astype_int (np_round y))%Z.
Proof.
  intros Hxy Hy. pose proof (round_half_even_mono x y Hxy) as Hm.
  destruct (astype_int_cases x) as [[Hx ->] | [Hx ->]];
    destruct (astype_int_cases y) as [[Hy' ->] | [Hy' ->]]; lia.
Qed.

Lemma round_half_even_inject_Z (k : Z) : round_half_even (inject_Z k) = k.
Proof.
  unfold round_half_even. rewrite Qfloor_Z.
  destruct (Qlt_bool (inject_Z k - inject_Z k) (1 # 2)) eqn:E; [reflexivity |].
  apply Qlt_bool_false in E. exfalso. lra.
Qed.

(** *** The float sum [vmin + 1.0] *)

Lemma pow2_small (k : Z) : (k <= 0)%Z -> 0 < Binary64.pow2 k /\ Binary64.pow2 k <= 1.
Proof.
  intros Hk. unfold Binary64.pow2.
  destruct (0 <=? k)%Z eqn:E.
  - assert (k = 0%Z) as -> by lia. split; [reflexivity | vm_compute; discriminate].
  - assert (H1 : (1 <= 2 ^ (- k))%Z) by (apply Z.pow_le_mono_r with (b := 0%Z) (c := (- k)%Z); lia).
    assert (H2 : 1 <= inject_Z (2 ^ (- k))).
    { change 1 with (inject_Z 1). rewrite <- Zle_Qle. exact H1. }
    split.
    + apply Qinv_lt_0_compat. lra.
    + apply Qle_shift_inv_r; lra.
Qed.

(** The rounding error is at most half the spacing. *)
Lemma round_near (x : Q) :
  0 < Binary64.ulp x ->
  x - Binary64.ulp x * (1 # 2) <= Binary64.round x /\
  Binary64.round x <= x + Binary64.ulp x * (1 # 2).
Proof.
  intros Hu. unfold Binary64.round.
  destruct (Qeq_bool x 0) eqn:E.
  - apply Qeq_bool_eq in E. set (u := Binary64.ulp x) in *. clearbody u. split; lra.
  - destruct (round_half_even_near (x / Binary64.ulp x)) as [H1 H2].
    set (u := Binary64.ulp x) in *.
    set (r := inject_Z (round_half_even (x / u))) in *.
    clearbody r. clearbody u.
    assert (Hx : x / u * u == x) by (field; lra).
    assert (H1' : (x / u - (1 # 2)) * u <= r * u)
      by (apply Qmult_le_compat_r; lra).
    assert (H2' : r * u <= (x / u + (1 # 2)) * u)
      by (apply Qmult_le_compat_r; lra).
    assert (Ea : (x / u - (1 # 2)) * u == x - u * (1 # 2)) by (field; lra).
    assert (Eb : (x / u + (1 # 2)) * u == x + u * (1 # 2)) by (field; lra).
    rewrite Ea in H1'. rewrite Eb in H2'. split; assumption.
Qed.

(** Below [2 ** 53] adding 1.0 moves a non-negative number up, by at
    least one half while the sum stays below [2 ** 53]. *)
Lemma add_one_above (x : Q) :
  0 <= x -> x < inject_Z (2 ^ 53) ->
  x < Binary64.add x 1 /\
  (x + 1 < inject_Z (2 ^ 53) -> x + (1 # 2) <= Binary64.add x 1).
Proof.
  intros H0 Hx. unfold Binary64.add.
  set (z := x + 1).
  assert (Hz1 : 1 <= z) by (subst z; lra).
  destruct (floor_spec z) as [Hfl Hfh].
  assert (Hn1 : (1 <= Qfloor z)%Z).
  { change 1%Z with (Qfloor 1). apply Qfloor_resp_le. exact Hz1. }
  assert (Hn2 : (Qfloor z <= 2 ^ 53)%Z).
  { assert (H : inject_Z (Qfloor z) < inject_Z (2 ^ 53 + 1)).
    { rewrite inject_Z_plus. change (inject_Z 1) with 1. subst z. lra. }
    rewrite <- Zlt_Qlt in H. lia. }
  assert (Habs : Qabs z == z) by (apply Qabs_pos; lra).
  assert (Hlog : Binary64.ilog2 (Qabs z) = Z.log2 (Qfloor z)).
  { unfold Binary64.ilog2.
    assert (E : Qle_bool 1 (Qabs z) = true) by (apply Qle_bool_iff; lra).
    rewrite E. f_equal. apply Qfloor_comp. exact Habs. }
  assert (Hl0 : (0 <= Z.log2 (Qfloor z))%Z) by apply Z.log2_nonneg.
  destruct (Z.eq_dec (Qfloor z) (2 ^ 53)%Z) as [Heq | Hne].
  - (* the sum lies in [2 ** 53, 2 ** 53 + 1): the spacing is 2 *)
    assert (Hu : Binary64.ulp z = 2).
    { unfold Binary64.ulp. rewrite Hlog, Heq. reflexivity. }
    assert (Hr : inject_Z (2 ^ 53) <= Binary64.round z).
    { unfold Binary64.round.
      assert (E : Qeq_bool z 0 = false).
      { destruct (Qeq_bool z 0) eqn:E; [| reflexivity].
        apply Qeq_bool_eq in E. lra. }
      rewrite E, Hu.
      assert (E2 : inject_Z (2 ^ 52) * 2 == inject_Z (2 ^ 53)) by (vm_compute; reflexivity).
      assert (Hh : inject_Z (2 ^ 52) <= z / 2).
      { apply Qle_shift_div_l; [lra |]. rewrite E2, <- Heq. exact Hfl. }
      pose proof (round_half_even_mono _ _ Hh) as Hm.
      rewrite round_half_even_inject_Z in Hm.
      rewrite Zle_Qle in Hm.
      rewrite <- E2. apply Qmult_le_compat_r; [exact Hm | lra]. }
    split; [lra |].
    intros Hx'. exfalso. rewrite Heq in Hfl. subst z. lra.
  - (* the sum lies below 2 ** 53: the spacing is at most 1 *)
    assert (Hlt : (Z.log2 (Qfloor z) < 53)%Z)
      by (apply Z.log2_lt_pow2; lia).
    assert (Hu : 0 < Binary64.ulp z /\ Binary64.ulp z <= 1).
    { unfold Binary64.ulp. rewrite Hlog. apply pow2_small.
      unfold Binary64.emin, Binary64.prec. lia. }
    destruct (round_near z (proj1 Hu)) as [Hr _].
    subst z. split; [lra | intros _; lra].
Qed.

End Arithmetic.

(** ** RangeCalculator *)

Section RangeFacts.

Local Open Scope Q_scope.
Import Range.

Lemma dropna_all_missing (series : list (option Q)) :
  Forall (fun v => v = None) series -> dropna series = [].
Proof.
  induction 1 as [| v series Hv _ IH]; [reflexivity |].
  subst v. exact IH.
Qed.

(** C8. Over a series whose observations are all missing, [robust_range]
    returns exactly the default domain (0.0, 1.0), for a rate metric and
    for a money metric alike. *)
Theorem robust_range_all_missing (series : list (option Q)) (is_rate : bool) :
  Forall (fun v => v = None) series ->
  robust_range series is_rate = (0, 1).
Proof.
  intros H. unfold robust_range. rewrite (dropna_all_missing _ H). reflexivity.
Qed.

Lemma robust_range_all_missing_witness :
  robust_range [None; None; None] true = (0, 1).
Proof.
  apply (robust_range_all_missing [None; None; None] true).
  repeat constructor.
Defined.

(** For a rate metric the lower end is not negative and the upper end is
    at least the float sum of the lower end and 1.0. *)
Lemma robust_range_rate_ends (series : list (option Q)) :
  0 <= (robust_range series true).1 /\
  Binary64.add (robust_range series true).1 1 <= (robust_range series true).2.
Proof.
  unfold robust_range.
  destruct (length (dropna series) =? 0)%nat; cbn [fst snd].
  - split; [lra | vm_compute; discriminate].
  - split; [apply py_max_l | apply py_max_l].
Qed.

(** C6. For a rate metric the domain returned by [robust_range] has
    [vmin >= 0], whatever the observations are (none at all, all missing,
    or nearly constant), and its [vmax] is at least the binary64 sum
    [vmin + 1.0].  That sum is above [vmin] while [vmin] is below
    [2 ** 53], and above it by one half at least while the sum is below
    [2 ** 53]. *)
Theorem robust_range_rate_clamp (series : list (option Q)) :
  0 <= (robust_range series true).1 /\
  Binary64.add (robust_range series true).1 1 <= (robust_range series true).2 /\
  ((robust_range series true).1 < inject_Z (2 ^ 53) ->
   (robust_range series true).1 < (robust_range series true).2) /\
  ((robust_range series true).1 + 1 < inject_Z (2 ^ 53) ->
   (robust_range series true).1 + (1 # 2) <= (robust_range series true).2).
Proof.
  destruct (robust_range_rate_ends series) as [H0 H1].
  split; [exact H0 |]. split; [exact H1 |].
  split; intros Hlt.
  - destruct (add_one_above _ H0 Hlt) as [Ha _]. lra.
  - assert (Hlt' : (robust_range series true).1 < inject_Z (2 ^ 53)) by lra.
    destruct (add_one_above _ H0 Hlt') as [_ Ha]. specialize (Ha Hlt). lra.
Qed.

Lemma robust_range_rate_clamp_witness :
  (robust_range [Some 5; Some 5; None; Some 5] true).1 < inject_Z (2 ^ 53) /\
  (robust_range [Some 5; Some 5; None; Some 5] true).1
  < (robust_range [Some 5; Some 5; None; Some 5] true).2.
Proof.
  split; [vm_compute; reflexivity |].
  apply (robust_range_rate_clamp [Some 5; Some 5; None; Some 5]).
  vm_compute. reflexivity.
Defined.

(** C6, as it was stated, fails in binary64: for the single observation
    1e16 the sum [vmin + 1.0] is rounded back to [vmin], and the domain
    returned is (1e16, 1e16). *)
Theorem robust_range_rate_clamp_absorbed :
  (robust_range rate_1e16 true).1 == inject_Z (10 ^ 16) /\
  (robust_range rate_1e16 true).2 == inject_Z (10 ^ 16) /\
  ~ ((robust_range rate_1e16 true).1 + 1 <= (robust_range rate_1e16 true).2).
Proof.
  vm_compute. split; [reflexivity |]. split; [reflexivity |].
  intros H. apply H. reflexivity.
Qed.

(** A constant rate series gets a domain one unit wide, and a negative one
    is lifted to start at zero. *)
Example robust_range_rate_constant :
  (robust_range [Some 5; Some 5; None; Some 5] true).1 == 5 /\
  (robust_range [Some 5; Some 5; None; Some 5] true).2 == 6 /\
  (robust_range [Some (-3)] true).1 == 0 /\
  (robust_range [Some (-3)] true).2 == 1.
Proof. vm_compute. repeat split. Qed.

End RangeFacts.

(** ** Text *)

Section TextFacts.

Local Close Scope Q_scope.

Lemma string_length_app (s1 s2 : string) :
  String.length (s1 ++ s2) = String.length s1 + String.length s2.
Proof. induction s1 as [| c s1 IH]; simpl; [reflexivity | now rewrite IH]. Qed.

Lemma digits_aux_length (base : Z) (fuel : nat) (n : Z) (acc : string) :
  String.length acc < String.length (digits_aux base fuel n acc).
Proof.
  revert n acc. induction fuel as [| fuel IH]; intros n acc; simpl.
  - lia.
  - destruct (n <? base)%Z; simpl; [lia |].
    specialize (IH (n / base)%Z (String (digit_char (n mod base)) acc)).
    simpl in IH. lia.
Qed.

Lemma digits_nonempty (base n : Z) : 1 <= String.length (digits base n).
Proof. pose proof (digits_aux_length base (Z.to_nat n) n ""). simpl in *. exact H. Qed.

Lemma format_02x_length (n : Z) : 2 <= String.length (format_02x n).
Proof.
  unfold format_02x. pose proof (digits_nonempty 16 n) as Hn.
  pose proof (digits_nonempty 16 (- n)) as Hm.
  destruct (n <? 0)%Z.
  - rewrite string_length_app. simpl. lia.
  - cbv zeta. destruct (String.length (digits 16 n) <? 2)%nat eqn:E.
    + rewrite string_length_app. simpl. lia.
    + apply Nat.ltb_ge in E. exact E.
Qed.

End TextFacts.

(** ** ColorMapper *)

Section PaletteFacts.

Local Open Scope Q_scope.
Import Palette.

Lemma scale_index (vmin vmax : Q) :
  index (scale vmin vmax) =
  [ vmin + (vmax - vmin) * (0 # 10);  vmin + (vmax - vmin) * (1 # 10);
    vmin + (vmax - vmin) * (2 # 10);  vmin + (vmax - vmin) * (3 # 10);
    vmin + (vmax - vmin) * (4 # 10);  vmin + (vmax - vmin) * (5 # 10);
    vmin + (vmax - vmin) * (6 # 10);  vmin + (vmax - vmin) * (7 # 10);
    vmin + (vmax - vmin) * (8 # 10);  vmin + (vmax - vmin) * (9 # 10);
    vmin + (vmax - vmin) * (10 # 10) ].
Proof. reflexivity. Qed.

Lemma filter_length_last {A} (P : A -> bool) (l : list A) (a : A) :
  P a = false -> (length (List.filter P (l ++ [a])) <= length l)%nat.
Proof.
  intros Ha. rewrite List.filter_app, length_app. simpl. rewrite Ha. simpl.
  pose proof (List.filter_length_le P l). lia.
Qed.

(** The lookup never meets unsorted thresholds on a rescaled ramp: every
    value gets a colour. *)
Lemma rgba_floats_tuple_total (vmin vmax x : Q) :
  is_Some (rgba_floats_tuple (scale vmin vmax) x).
Proof.
  unfold rgba_floats_tuple. rewrite scale_index.
  cbn [nth List.last].
  destruct (Qle_bool x _) eqn:E0; [eauto |].
  destruct (Qle_bool _ x) eqn:E1; [eauto |].
  assert (H0 : vmin < x).
  { destruct (Qlt_le_dec (vmin + (vmax - vmin) * (0 # 10)) x) as [H | H]; [lra |].
    apply Qle_bool_iff in H. congruence. }
  assert (H1 : x < vmax).
  { destruct (Qlt_le_dec x (vmin + (vmax - vmin) * (10 # 10))) as [H | H]; [lra |].
    apply Qle_bool_iff in H. congruence. }
  match goal with
  | |- context [length (List.filter ?P ?l)] =>
      assert (Hi : (length (List.filter P l) <= 10)%nat);
      [| generalize dependent (length (List.filter P l)); intros i Hi ]
  end.
  { match goal with
    | |- (length (List.filter ?P (?a0 :: ?a1 :: ?a2 :: ?a3 :: ?a4 :: ?a5 :: ?a6
                                    :: ?a7 :: ?a8 :: ?a9 :: [?a10])) <= _)%nat =>
        apply (filter_length_last P [a0; a1; a2; a3; a4; a5; a6; a7; a8; a9] a10)
    end.
    apply Qlt_bool_false. lra. }
  do 11 (destruct i as [| i];
    [ cbn [Nat.sub nth];
      match goal with
      | |- context [Qlt_bool ?lo ?hi] =>
          destruct (Qlt_bool lo hi) eqn:E; [eauto |];
          destruct (Qeq_bool lo hi) eqn:E'; [eauto |];
          exfalso; apply Qlt_bool_false in E;
          first [ lra | (apply Qeq_bool_neq in E'; apply E'; reflexivity) ]
      end |]).
  lia.
Qed.

Lemma call_total (vmin vmax x : Q) : is_Some (call (scale vmin vmax) x).
Proof.
  unfold call, rgba_hex_str, rgba_bytes_tuple.
  destruct (rgba_floats_tuple_total vmin vmax x) as [[[[r g] b] a] ->]. eauto.
Qed.

(** A colour text of the palette has at least nine characters. *)
Lemma call_length (cm : LinearColormap) (x : Q) (c : string) :
  call cm x = Some c -> (9 <= String.length c)%nat.
Proof.
  unfold call, rgba_hex_str.
  destruct (rgba_bytes_tuple cm x) as [[[[r g] b] a] |]; [| discriminate].
  intros [= <-]. rewrite !string_length_app. simpl.
  pose proof (format_02x_length r). pose proof (format_02x_length g).
  pose proof (format_02x_length b). pose proof (format_02x_length a). lia.
Qed.

(** In a non-decreasing list the entries below [x] are a prefix: the entry
    before their count is below [x], and the entry at their count is not. *)
Lemma count_below_sorted (x : Q) (l : list Q) :
  StronglySorted Qle l ->
  let i := length (List.filter (fun u => Qlt_bool u x) l) in
  ((0 < i)%nat -> nth (i - 1) l 0 < x) /\
  ((i < length l)%nat -> x <= nth i l 0).
Proof.
  induction 1 as [| a l Hs IH Ha]; cbn zeta.
  - simpl. split; intros; lia.
  - cbn [List.filter]. destruct (Qlt_bool a x) eqn:E.
    + apply Qlt_bool_true in E. cbn zeta in IH. destruct IH as [IH1 IH2].
      cbn [length]. set (i := length (List.filter _ l)) in *. split.
      * intros _. destruct i as [| i'] eqn:Ei; [exact E |].
        replace (S (S i') - 1)%nat with (S i') by lia.
        cbn [nth]. replace i' with (S i' - 1)%nat by lia. apply IH1. lia.
      * intros Hlt. cbn [nth]. apply IH2. lia.
    + apply Qlt_bool_false in E.
      assert (Hnil : List.filter (fun u => Qlt_bool u x) l = []).
      { clear -Ha E. induction Ha as [| b l Hb _ IHl]; [reflexivity |].
        cbn [List.filter]. rewrite IHl.
        destruct (Qlt_bool b x) eqn:Eb; [| reflexivity].
        apply Qlt_bool_true in Eb. exfalso. lra. }
      rewrite Hnil. simpl. split; [lia | intros _; exact E].
Qed.

Lemma scale_index_sorted (vmin vmax : Q) :
  vmin <= vmax -> StronglySorted Qle (index (scale vmin vmax)).
Proof.
  intros H. rewrite scale_index.
  repeat (constructor; [| repeat (constructor; [lra |]); constructor]).
  constructor.
Qed.

Lemma channel_byte_bound (u : Q) (k : Z) :
  0 <= u -> u <= inject_Z k / 255 -> (0 <= k <= 255)%Z -> (channel_byte u <= k)%Z.
Proof.
  intros H0 Hu Hk. unfold channel_byte, py_int.
  assert (Hk' : 0 <= inject_Z k <= 255).
  { change 0 with (inject_Z 0). change 255 with (inject_Z 255).
    rewrite <- !Zle_Qle. exact Hk. }
  assert (Hd : inject_Z k / 255 * 255 == inject_Z k) by field.
  destruct (Qlt_bool _ 0) eqn:E.
  { apply Qlt_bool_true in E. exfalso. lra. }
  assert (Hlt : u * (2559999 # 10000) < inject_Z (k + 1)).
  { rewrite inject_Z_plus. change (inject_Z 1) with 1. lra. }
  pose proof (Qfloor_le (u * (2559999 # 10000))) as Hf.
  assert (Hz : inject_Z (Qfloor (u * (2559999 # 10000))) < inject_Z (k + 1)) by lra.
  rewrite <- Zlt_Qlt in Hz. lia.
Qed.

(** The blue channel of a palette colour never exceeds the one of the
    middle stop, 191. *)
Lemma palette_blue_bound (vmin vmax x : Q) (r g b a : Z) :
  rgba_bytes_tuple (scale vmin vmax) x = Some (r, g, b, a) -> (b <= 191)%Z.
Proof.
  unfold rgba_bytes_tuple, rgba_floats_tuple.
  pose proof (count_below_sorted x (index (scale vmin vmax))) as Hcount.
  pose proof (scale_index_sorted vmin vmax) as Hsorted.
  rewrite scale_index in *.
  cbn [nth List.last].
  destruct (Qle_bool x _) eqn:E0.
  { intros [= _ _ <- _]. vm_compute. discriminate. }
  destruct (Qle_bool _ x) eqn:E1.
  { intros [= _ _ <- _]. vm_compute. discriminate. }
  assert (H0 : vmin < x).
  { destruct (Qlt_le_dec (vmin + (vmax - vmin) * (0 # 10)) x) as [H | H]; [lra |].
    apply Qle_bool_iff in H. congruence. }
  assert (H1 : x < vmax).
  { destruct (Qlt_le_dec x (vmin + (vmax - vmin) * (10 # 10))) as [H | H]; [lra |].
    apply Qle_bool_iff in H. congruence. }
  specialize (Hcount (Hsorted ltac:(lra))). cbn zeta in Hcount.
  cbn [length] in Hcount.
  match goal with
  | |- context [length (List.filter ?P ?l)] =>
      assert (Hi : (length (List.filter P l) <= 10)%nat);
      [| generalize dependent (length (List.filter P l)); intros i Hcount Hi ]
  end.
  { match goal with
    | |- (length (List.filter ?P (?a0 :: ?a1 :: ?a2 :: ?a3 :: ?a4 :: ?a5 :: ?a6
                                    :: ?a7 :: ?a8 :: ?a9 :: [?a10])) <= _)%nat =>
        apply (filter_length_last P [a0; a1; a2; a3; a4; a5; a6; a7; a8; a9] a10)
    end.
    apply Qlt_bool_false. lra. }
  destruct Hcount as [Hlo Hhi].
  destruct i as [| i].
  { exfalso. specialize (Hhi ltac:(lia)). cbn [nth] in Hhi. lra. }
  specialize (Hlo ltac:(lia)). specialize (Hhi ltac:(lia)).
  do 10 (destruct i as [| i];
    [ cbn [Nat.sub nth] in *;
      match goal with
      | |- context [Qlt_bool ?lo ?hi] =>
          assert (Hlt : lo < hi) by lra;
          apply Qlt_bool_true in Hlt; rewrite Hlt;
          apply Qlt_bool_true in Hlt;
          set (p := (x - lo) / (hi - lo));
          assert (Hp : 0 <= p /\ p <= 1);
          [ subst p; split;
            [ apply Qle_shift_div_l; lra | apply Qle_shift_div_r; lra ]
          | ]
      end;
      unfold RdYlGn_11, parse_rgb, mix; cbn [nth];
      intros [= _ _ <- _];
      apply channel_byte_bound; [| | lia];
      repeat match goal with
             | |- context [inject_Z ?k / 255] =>
                 let q := eval vm_compute in (inject_Z k / 255) in
                 change (inject_Z k / 255) with q
             end; lra
    |]).
  lia.
Qed.

End PaletteFacts.

(** ** LegendBuilder *)

Section LegendFacts.

Local Open Scope Q_scope.
Import Legend.

Lemma linspace_lookup (start stop : Q) (num i : nat) (x : Q) :
  linspace start stop num !! i = Some x ->
  (i < num)%nat /\
  ((1 < num)%nat /\ i = (num - 1)%nat /\ x = stop \/
   i <> (num - 1)%nat /\
   x = inject_Z (Z.of_nat i) * ((stop - start) / inject_Z (Z.of_nat (num - 1))) + start \/
   (num <= 1)%nat /\
   x = inject_Z (Z.of_nat i) * ((stop - start) / inject_Z (Z.of_nat (num - 1))) + start).
Proof.
  unfold linspace.
  set (y := map _ (seq 0 num)).
  assert (Hy : forall k v, y !! k = Some v ->
            (k < num)%nat /\
            v = inject_Z (Z.of_nat k) * ((stop - start) / inject_Z (Z.of_nat (num - 1))) + start).
  { intros k v Hk. subst y. change (map ?f ?l) with (f <$> l) in Hk.
    rewrite list_lookup_fmap in Hk.
    destruct (seq 0 num !! k) as [k' |] eqn:Ek; [| discriminate].
    apply lookup_seq in Ek as [-> Hlt]. simpl in Hk. injection Hk as <-.
    split; [exact Hlt | reflexivity]. }
  assert (Hlen : length y = num).
  { subst y. rewrite length_map, length_seq. reflexivity. }
  destruct (1 <? num)%nat eqn:E.
  - apply Nat.ltb_lt in E. rewrite list_lookup_insert.
    case_decide as Hd.
    + intros [= <-]. destruct Hd as [<- Hd]. rewrite Hlen in Hd.
      split; [lia |]. left. repeat split; [lia].
    + intros Hi. destruct (Hy _ _ Hi) as [Hlt ->].
      split; [exact Hlt |]. right. left. split; [| reflexivity].
      intros ->. apply Hd. split; [reflexivity | lia].
  - apply Nat.ltb_ge in E. intros Hi. destruct (Hy _ _ Hi) as [Hlt ->].
    split; [exact Hlt |]. right. right. split; [exact E | reflexivity].
Qed.

Lemma linspace_nondecreasing (start stop : Q) (num : nat) :
  start <= stop -> nondecreasing (linspace start stop num).
Proof.
  intros Hle i j x y Hij Hx Hy.
  destruct (decide (i = j)) as [-> | Hne].
  { rewrite Hx in Hy. injection Hy as <-. apply Qle_refl. }
  apply linspace_lookup in Hx as [Hi Hx], Hy as [Hj Hy].
  assert (Hn : (1 < num)%nat) by lia.
  set (n1 := inject_Z (Z.of_nat (num - 1))) in *.
  assert (Hn1 : 0 < n1).
  { subst n1. change 0 with (inject_Z 0). rewrite <- Zlt_Qlt. lia. }
  set (step := (stop - start) / n1) in *.
  assert (Hstep : 0 <= step).
  { subst step. apply Qle_shift_div_l; [exact Hn1 | lra]. }
  assert (Hfull : n1 * step == stop - start).
  { subst step. apply Qmult_div_r. lra. }
  assert (Hmono : forall a b : nat, (a <= b)%nat ->
            inject_Z (Z.of_nat a) * step <= inject_Z (Z.of_nat b) * step).
  { intros a b Hab. apply Qmult_le_compat_r; [| exact Hstep].
    rewrite <- Zle_Qle. lia. }
  destruct Hx as [(_ & -> & _) | [(_ & ->) | (? & _)]]; [lia | | lia].
  destruct Hy as [(_ & -> & ->) | [(_ & ->) | (? & _)]]; [| | lia].
  - specialize (Hmono i (num - 1)%nat ltac:(lia)). fold n1 in Hmono. lra.
  - specialize (Hmono i j Hij). lra.
Qed.

Lemma nondecreasing_map (f : Q -> Q) (l : list Q) :
  (forall x y, x <= y -> f x <= f y) ->
  nondecreasing l -> nondecreasing (map f l).
Proof.
  intros Hf Hl i j x y Hij Hx Hy.
  change (map f l) with (f <$> l) in Hx, Hy.
  rewrite list_lookup_fmap in Hx, Hy.
  destruct (l !! i) as [x0 |] eqn:Ex; [| discriminate].
  destruct (l !! j) as [y0 |] eqn:Ey; [| discriminate].
  simpl in Hx, Hy. injection Hx as <-. injection Hy as <-.
  apply Hf. exact (Hl i j x0 y0 Hij Ex Ey).
Qed.

Lemma linspace_length (start stop : Q) (num : nat) :
  length (linspace start stop num) = num.
Proof.
  unfold linspace. destruct (1 <? num)%nat;
    rewrite ?length_insert, length_map, length_seq; reflexivity.
Qed.

Lemma linspace_first (start stop : Q) (num : nat) :
  (0 < num)%nat ->
  exists raw : Q, linspace start stop num !! 0%nat = Some raw /\ raw == start.
Proof.
  intros Hn.
  destruct (lookup_lt_is_Some_2 (linspace start stop num) 0%nat) as [raw Hraw].
  { rewrite linspace_length. exact Hn. }
  exists raw. split; [exact Hraw |].
  apply linspace_lookup in Hraw as [_ [(H1 & H0 & _) | [(_ & ->) | (_ & ->)]]].
  - lia.
  - simpl. ring.
  - simpl. ring.
Qed.

Lemma linspace_last (start stop : Q) (num : nat) :
  (1 < num)%nat -> linspace start stop num !! (num - 1)%nat = Some stop.
Proof.
  intros Hn. unfold linspace.
  assert (E : (1 <? num)%nat = true) by (apply Nat.ltb_lt; exact Hn).
  rewrite E. apply list_lookup_insert_eq.
  rewrite length_map, length_seq. lia.
Qed.

Lemma linspace_lower (start stop : Q) (num i : nat) (x : Q) :
  start <= stop -> linspace start stop num !! i = Some x -> start <= x.
Proof.
  intros Hle Hx.
  assert (Hi : (i < num)%nat).
  { apply lookup_lt_Some in Hx. rewrite linspace_length in Hx. exact Hx. }
  destruct (linspace_first start stop num ltac:(lia)) as (raw & Hraw & H1).
  pose proof (linspace_nondecreasing start stop num Hle 0%nat i raw x ltac:(lia) Hraw Hx).
  lra.
Qed.

Lemma linspace_upper (start stop : Q) (num i : nat) (x : Q) :
  start <= stop -> linspace start stop num !! i = Some x -> x <= stop.
Proof.
  intros Hle Hx.
  assert (Hi : (i < num)%nat).
  { apply lookup_lt_Some in Hx. rewrite linspace_length in Hx. exact Hx. }
  destruct (decide (1 < num)%nat) as [Hn | Hn].
  - pose proof (linspace_last start stop num Hn) as Hlast.
    exact (linspace_nondecreasing start stop num Hle i (num - 1)%nat x stop
             ltac:(lia) Hx Hlast).
  - assert (i = 0%nat) as -> by lia.
    destruct (linspace_first start stop num ltac:(lia)) as (raw & Hraw & H1).
    rewrite Hx in Hraw. injection Hraw as <-. lra.
Qed.

Lemma money_tick_value_np_round (v : Q) :
  money_tick_value (np_round (v * 2)) = inject_Z (round_half_even (v * 2)) / 2.
Proof. unfold money_tick_value. rewrite rounded_value_np_round. reflexivity. Qed.

(** C9. For a domain with [vmin <= vmax] and any number of ticks, the
    rounded tick values of the legend are non-decreasing from left to
    right: in money mode (the tip metrics) always, and in rate mode (the
    tip rate) when [vmax] is at most the largest int64. *)
Theorem tick_values_nondecreasing (vmin vmax : Q) (n_ticks : nat) (money_mode : bool) :
  vmin <= vmax ->
  (money_mode = false -> vmax <= inject_Z INT64_MAX) ->
  nondecreasing (tick_values vmin vmax n_ticks money_mode).
Proof.
  intros Hle Hmax. unfold tick_values, money_ticks, rate_ticks.
  rewrite !map_map. destruct money_mode.
  - apply nondecreasing_map; [| apply linspace_nondecreasing; exact Hle].
    intros x y Hxy. rewrite !money_tick_value_np_round.
    apply Qmult_le_compat_r; [| apply Qinv_le_0_compat; lra].
    rewrite <- Zle_Qle. apply round_half_even_mono. lra.
  - specialize (Hmax eq_refl).
    intros i j x y Hij Hx Hy.
    change (map ?f ?l) with (f <$> l) in Hx, Hy.
    rewrite list_lookup_fmap in Hx, Hy.
    destruct (linspace vmin vmax n_ticks !! i) as [rx |] eqn:Ex; [| discriminate].
    destruct (linspace vmin vmax n_ticks !! j) as [ry |] eqn:Ey; [| discriminate].
    simpl in Hx, Hy. injection Hx as <-. injection Hy as <-.
    pose proof (linspace_nondecreasing vmin vmax n_ticks Hle i j rx ry Hij Ex Ey) as Hxy.
    pose proof (linspace_upper vmin vmax n_ticks j ry Hle Ey) as Hup.
    assert (Hr : (round_half_even ry <= INT64_MAX)%Z).
    { rewrite <- (round_half_even_inject_Z INT64_MAX).
      apply round_half_even_mono. lra. }
    rewrite <- Zle_Qle. apply astype_int_mono; assumption.
Qed.

Lemma tick_values_nondecreasing_witness :
  3 <= 26 /\ 26 <= inject_Z INT64_MAX /\ nondecreasing (tick_values 3 26 7 false).
Proof.
  split; [lra |]. split; [vm_compute; discriminate |].
  apply (tick_values_nondecreasing 3 26 7 false).
  - lra.
  - intros _. vm_compute. discriminate.
Defined.

(** C9, as it was stated, fails in rate mode beyond the int64 range: on
    the domain (0, 1e19) with two ticks the second tick, 1e19, is cast to
    the least int64; the labels are 0 and -9223372036854775808, and the
    ticks decrease. *)
Theorem rate_ticks_decrease_beyond_int64 :
  0 <= inject_Z (10 ^ 19) /\
  tick_values 0 (inject_Z (10 ^ 19)) 2 false = [0; inject_Z (- 2 ^ 63)] /\
  tick_labels 0 (inject_Z (10 ^ 19)) 2 false = ["0"; "-9223372036854775808"]%string /\
  ~ nondecreasing (tick_values 0 (inject_Z (10 ^ 19)) 2 false).
Proof.
  split; [vm_compute; discriminate |].
  assert (E : tick_values 0 (inject_Z (10 ^ 19)) 2 false = [0; inject_Z (- 2 ^ 63)])
    by (vm_compute; reflexivity).
  split; [exact E |].
  split; [lazy; reflexivity |].
  intros H. rewrite E in H.
  specialize (H 0%nat 1%nat 0 (inject_Z (- 2 ^ 63)) ltac:(lia) eq_refl eq_refl).
  vm_compute in H. apply H. reflexivity.
Qed.

End LegendFacts.

(** ** Labels read back as numbers *)

Section LabelFacts.

Local Close Scope Q_scope.

Lemma string_app_cons (c : ascii) (s1 s2 : string) :
  (String c s1 ++ s2 = String c (s1 ++ s2))%string.
Proof. reflexivity. Qed.

Lemma string_app_nil_r (s : string) : (s ++ "" = s)%string.
Proof.
  induction s as [| c s IH]; [reflexivity |].
  rewrite string_app_cons, IH. reflexivity.
Qed.

Lemma list_ascii_app (s1 s2 : string) :
  list_ascii_of_string (s1 ++ s2) = (list_ascii_of_string s1 ++ list_ascii_of_string s2)%list.
Proof.
  induction s1 as [| c s1 IH]; [reflexivity |].
  rewrite string_app_cons. simpl. rewrite IH. reflexivity.
Qed.

Lemma string_app_assoc (s1 s2 s3 : string) :
  ((s1 ++ s2) ++ s3 = s1 ++ (s2 ++ s3))%string.
Proof.
  induction s1 as [| c s1 IH]; [reflexivity |].
  rewrite !string_app_cons, IH. reflexivity.
Qed.

Lemma all_digits_app (s1 s2 : string) :
  all_digits (s1 ++ s2) = all_digits s1 && all_digits s2.
Proof. unfold all_digits. rewrite list_ascii_app. apply forallb_app. Qed.

Lemma has_currency_marker_app (s1 s2 : string) :
  has_currency_marker (s1 ++ s2) = has_currency_marker s1 || has_currency_marker s2.
Proof. unfold has_currency_marker. rewrite list_ascii_app. apply existsb_app. Qed.

Lemma digits_value_snoc (s : string) (c : ascii) :
  digits_value (s ++ String c "") = (10 * digits_value s + digit_value c)%Z.
Proof. unfold digits_value. rewrite list_ascii_app, fold_left_app. reflexivity. Qed.

Lemma all_digits_cons (c : ascii) (s : string) :
  all_digits (String c s) = is_digit c && all_digits s.
Proof. reflexivity. Qed.

Lemma has_currency_marker_cons (c : ascii) (s : string) :
  has_currency_marker (String c s) = Ascii.eqb "$" c || has_currency_marker s.
Proof. reflexivity. Qed.

Lemma digits_value_single (c : ascii) : digits_value (String c "") = digit_value c.
Proof. reflexivity. Qed.

Lemma digit_char_ok (k : Z) :
  (0 <= k < 10)%Z ->
  is_digit (digit_char k) = true /\ digit_value (digit_char k) = k /\
  Ascii.eqb "$" (digit_char k) = false.
Proof.
  intros Hk.
  assert (H : (k = 0 \/ k = 1 \/ k = 2 \/ k = 3 \/ k = 4 \/ k = 5 \/ k = 6 \/
               k = 7 \/ k = 8 \/ k = 9)%Z) by lia.
  repeat (destruct H as [-> | H]; [repeat split |]); subst; repeat split.
Qed.

Lemma digits_aux_spec (fuel : nat) :
  forall (n : Z) (acc : string),
    (0 <= n <= Z.of_nat fuel)%Z ->
    exists d : string,
      digits_aux 10 fuel n acc = (d ++ acc)%string /\
      d <> ""%string /\ all_digits d = true /\ digits_value d = n /\
      has_currency_marker d = false.
Proof.
  induction fuel as [| fuel IH]; intros n acc Hn.
  - assert (n = 0%Z) as -> by lia. exists "0"%string. repeat split. discriminate.
  - simpl. destruct (n <? 10)%Z eqn:E.
    + apply Z.ltb_lt in E.
      destruct (digit_char_ok n ltac:(lia)) as (Hd & Hv & Hm).
      rewrite Z.mod_small by lia.
      exists (String (digit_char n) ""). split; [reflexivity |].
      split; [discriminate |].
      rewrite all_digits_cons, has_currency_marker_cons, digits_value_single, Hd, Hm, Hv.
      repeat split.
    + apply Z.ltb_ge in E.
      destruct (IH (n / 10)%Z (String (digit_char (n mod 10)) acc)) as (d & Hd & Hne & Ha & Hv & Hm).
      { split; [apply Z.div_pos; lia |].
        assert (n / 10 < n)%Z by (apply Z.div_lt; lia). lia. }
      destruct (digit_char_ok (n mod 10)%Z) as (Hd0 & Hv0 & Hm0).
      { apply Z.mod_pos_bound. lia. }
      exists (d ++ String (digit_char (n mod 10)) "")%string.
      split; [rewrite Hd, string_app_assoc; reflexivity |].
      split; [destruct d; [congruence | discriminate] |].
      rewrite all_digits_app, has_currency_marker_app, digits_value_snoc, Ha, Hm, Hv, Hv0.
      rewrite all_digits_cons, has_currency_marker_cons, Hd0, Hm0.
      repeat split. pose proof (Z.div_mod n 10 ltac:(lia)). lia.
Qed.

Lemma digits_spec (n : Z) :
  (0 <= n)%Z ->
  digits 10 n <> ""%string /\ all_digits (digits 10 n) = true /\
  digits_value (digits 10 n) = n /\ has_currency_marker (digits 10 n) = false.
Proof.
  intros Hn. unfold digits.
  destruct (digits_aux_spec (Z.to_nat n) n "" ltac:(lia)) as (d & -> & H).
  rewrite string_app_nil_r. exact H.
Qed.

End LabelFacts.

Section LabelTheorems.

Local Open Scope Q_scope.
Import Legend.







End LabelTheorems.

(** ** ColorMapper and the scenarios *)

Section ColorFacts.

Local Open Scope Q_scope.
Import Palette Scene.

(** Above the domain the colour is the one of the last stop. *)
Lemma call_saturates_high (vmin vmax x : Q) :
  vmin < x -> vmax <= x -> call (scale vmin vmax) x = Some "#006837ff"%string.
Proof.
  intros Hlo Hhi. unfold call, rgba_hex_str, rgba_bytes_tuple, rgba_floats_tuple.
  rewrite scale_index.
  cbn [nth List.last].
  destruct (Qle_bool x _) eqn:E0.
  { apply Qle_bool_iff in E0. exfalso. lra. }
  destruct (Qle_bool _ x) eqn:E1.
  - vm_compute. reflexivity.
  - assert (H : vmin + (vmax - vmin) * (10 # 10) <= x) by lra.
    apply Qle_bool_iff in H. congruence.
Qed.

Lemma NO_DATA_RGB_text :
  let '(r, g, b) := NO_DATA_RGB in
  ("#" ++ format_02x r ++ format_02x g ++ format_02x b)%string = NO_DATA_COLOR.
Proof. reflexivity. Qed.

(** C7. For every metric, a missing value is given the fixed no-data
    colour, and every value that is present is given a colour by the
    palette that is different from the no-data colour: as a text, and
    already in its red, green and blue bytes. *)
Theorem color_for_sentinel (gdfs : Z -> list Row) (m : Metric) :
  color_for gdfs m None = Some NO_DATA_COLOR /\
  forall v : Q, exists (c : string) (r g b a : Z),
    color_for gdfs m (Some v) = Some c /\
    c <> NO_DATA_COLOR /\
    rgba_bytes_tuple (PALETTES gdfs m) v = Some (r, g, b, a) /\
    (r, g, b) <> NO_DATA_RGB.
Proof.
  split; [reflexivity |].
  intros v. unfold color_for, PALETTES.
  destruct (call_total (ranges gdfs m).1 (ranges gdfs m).2 v) as [c Hc].
  pose proof Hc as Hc'. unfold call, rgba_hex_str in Hc'.
  destruct (rgba_bytes_tuple _ v) as [[[[r g] b] a] |] eqn:Eb; [| discriminate].
  exists c, r, g, b, a. split; [exact Hc |].
  split; [| split; [reflexivity |]].
  - intros ->. apply call_length in Hc. vm_compute in Hc. lia.
  - intros [= _ _ ->]. apply palette_blue_bound in Eb. lia.
Qed.

(** C3, as stated, fails: for the observations 3, 4, 5 and 100 the upper
    end of the range is not nearer to 5 than to 100. *)
Lemma scenario_A_vmax_not_near_5 :
  ~ nearer (Range.robust_range scenario_A false).2 5 100.
Proof. intros H. vm_compute in H. discriminate. Qed.

(** C3, as the code has it. For the observations 3, 4, 5 and 100 the range
    is (3.009, 99.145): the upper end is interpolated between 5 and 100 and
    is nearer to 100.  The outlier 100, like every value at or above the
    upper end, gets the colour of the last stop and no error. *)
Theorem scenario_A_range :
  (Range.robust_range scenario_A false).1 == 3009 # 1000 /\
  (Range.robust_range scenario_A false).2 == 99145 # 1000 /\
  nearer (Range.robust_range scenario_A false).2 100 5 /\
  forall x : Q,
    (Range.robust_range scenario_A false).2 <= x ->
    call (scale (Range.robust_range scenario_A false).1
                (Range.robust_range scenario_A false).2) x
    = Some "#006837ff"%string.
Proof.
  split; [vm_compute; reflexivity |].
  split; [vm_compute; reflexivity |].
  split; [vm_compute; reflexivity |].
  intros x Hx. apply call_saturates_high; [| exact Hx].
  assert (H : (Range.robust_range scenario_A false).1 < (Range.robust_range scenario_A false).2)
    by (vm_compute; reflexivity).
  lra.
Qed.

End ColorFacts.

(** ** The trip-count column *)

Section CountColumn.

Import Scene.

(** C10. The trip counts are taken from the column [num_trips] whenever the
    table has it, whatever a column [num_tips] of the same table holds; the
    column [num_tips] is used only when [num_trips] is absent. *)
Theorem count_col_precedence (gdf : gmap string (list (option Q))) :
  match gdf !! "num_trips"%string with
  | Some col =>
      count_col gdf = "num_trips"%string /\
      num_trips_s gdf = Some (map format_trips col) /\
      forall other : list (option Q),
        num_trips_s (<["num_tips"%string := other]> gdf) = Some (map format_trips col)
  | None =>
      count_col gdf = "num_tips"%string /\
      num_trips_s gdf = map format_trips <$> (gdf !! "num_tips"%string)
  end.
Proof.
  destruct (gdf !! "num_trips"%string) as [col |] eqn:E.
  - assert (Hc : forall g : gmap string (list (option Q)),
              g !! "num_trips"%string = Some col ->
              count_col g = "num_trips"%string /\ num_trips_s g = Some (map format_trips col)).
    { intros g Hg. unfold num_trips_s, count_col.
      rewrite bool_decide_eq_true_2 by (rewrite Hg; eauto).
      rewrite Hg. split; reflexivity. }
    destruct (Hc gdf E) as [H1 H2]. repeat split; [exact H1 | exact H2 |].
    intros other. apply Hc. rewrite lookup_insert_ne by discriminate. exact E.
  - unfold num_trips_s, count_col.
    rewrite bool_decide_eq_false_2 by (rewrite E; intros [? ?]; discriminate).
    split; [reflexivity |].
    destruct (gdf !! "num_tips"%string); reflexivity.
Qed.

End CountColumn.

(** ** ClientController: layers *)

Section LayerFacts.

Local Close Scope Q_scope.
Import Controller.

Lemma Layer_forall_ind (P : Layer -> Prop) :
  (forall f c ls b, P (Path f c ls b)) ->
  (forall f s kids ls b, Forall P kids -> P (LayerGroup f s kids ls b)) ->
  forall l, P l.
Proof.
  intros HP HG. fix IH 1. intros [f c ls b | f s kids ls b].
  - apply HP.
  - apply HG. induction kids as [| k kids IHk]; constructor; [apply IH | exact IHk].
Qed.

Lemma map_ext_Forall {A B} (f g : A -> B) (l : list A) :
  Forall (fun x => f x = g x) l -> map f l = map g l.
Proof. induction 1 as [| x l Hx _ IH]; simpl; [reflexivity | now rewrite Hx, IH]. Qed.

Lemma setStyle_absorb (c c' : string) (l : Layer) :
  setStyle c (setStyle c' l) = setStyle c l.
Proof.
  induction l as [f c0 ls b | f s kids ls b IH] using Layer_forall_ind; [reflexivity |].
  destruct s; [| reflexivity]. simpl. rewrite map_map. f_equal.
  apply map_ext_Forall. exact IH.
Qed.

Lemma setStyle_opt_setStyle (c : string) (p : option string) (l : Layer) :
  setStyle c (opt_setStyle p l) = opt_setStyle (Some c) l.
Proof. destruct p; simpl; [apply setStyle_absorb | reflexivity]. Qed.

Lemma opt_setStyle_group (p : option string) f s kids ls b :
  opt_setStyle p (LayerGroup f s kids ls b) =
  LayerGroup f s (map (opt_setStyle (if s then p else None)) kids) ls b.
Proof.
  destruct p as [c |], s; simpl; try reflexivity; now rewrite map_id.
Qed.

Lemma depth_kid (k : Layer) (kids : list Layer) :
  In k kids -> depth k <= foldr Nat.max 0 (map depth kids).
Proof.
  induction kids as [| k' kids IH]; simpl; [tauto |].
  intros [-> | Hin]; [lia | specialize (IH Hin); lia].
Qed.

(** With fuel above the nesting depth, the walk computes [paint]. *)
Lemma applyToLayer_paint (n : nat) (cp : string) :
  forall (p : option string) (l : Layer),
    depth l < n -> applyToLayer n cp (opt_setStyle p l) = paint cp p l.
Proof.
  induction n as [| n IH]; intros p l Hd; [lia |].
  destruct l as [f c ls b | f s kids ls b].
  - assert (Hp : opt_setStyle p (Path f c ls b) = Path f (default c p) ls b)
      by (destruct p; reflexivity).
    rewrite Hp. destruct f as [props |]; reflexivity.
  - rewrite opt_setStyle_group.
    assert (Hk : forall q, map (applyToLayer n cp) (map (opt_setStyle q) kids)
                           = map (paint cp q) kids).
    { intros q. rewrite map_map. apply map_ext_in. intros k Hin. apply IH.
      pose proof (depth_kid k kids Hin). simpl in Hd. lia. }
    destruct f as [props |].
    + destruct s.
      * simpl. f_equal. rewrite <- (Hk (Some (js_or (props !! cp) "#cccccc"))).
        f_equal. rewrite map_map.
        apply map_ext. intros k. apply setStyle_opt_setStyle.
      * simpl. f_equal. apply Hk.
    + simpl. f_equal. apply Hk.
Qed.

Lemma recolorLayerByMetric_paint (lyr : Layer) (m : Metric) :
  recolorLayerByMetric lyr m = paint ("color_" ++ metric_name m) None lyr.
Proof.
  unfold recolorLayerByMetric.
  apply (applyToLayer_paint (S (depth lyr)) _ None lyr). lia.
Qed.

(** Any fuel above the nesting depth gives the same result. *)
Lemma applyToLayer_fuel (n n' : nat) (cp : string) (l : Layer) :
  depth l < n -> depth l < n' -> applyToLayer n cp l = applyToLayer n' cp l.
Proof.
  intros H H'. transitivity (paint cp None l).
  - exact (applyToLayer_paint n cp None l H).
  - symmetry. exact (applyToLayer_paint n' cp None l H').
Qed.

Lemma js_or_nonempty (v : option string) (d : string) : d <> "" -> js_or v d <> "".
Proof. intros Hd. unfold js_or. destruct v as [c |]; [case_decide |]; assumption. Qed.

Lemma js_or_stable (cp : string) (props : gmap string string) :
  js_or (<["cur_color" := js_or (props !! cp) "#cccccc"]> props !! cp) "#cccccc"
  = js_or (props !! cp) "#cccccc".
Proof.
  destruct (decide ("cur_color" = cp)) as [<- | Hne].
  - rewrite lookup_insert_eq. simpl.
    rewrite decide_False; [reflexivity |]. apply js_or_nonempty. discriminate.
  - rewrite lookup_insert_ne by exact Hne. reflexivity.
Qed.

Lemma paint_idem (cp : string) (l : Layer) :
  forall p : option string, paint cp p (paint cp p l) = paint cp p l.
Proof.
  induction l as [f c ls b | f s kids ls b IH] using Layer_forall_ind; intros p.
  - destruct f as [props |]; simpl.
    + rewrite js_or_stable, insert_insert_eq. reflexivity.
    + destruct p; reflexivity.
  - destruct f as [props |]; simpl.
    + rewrite js_or_stable, insert_insert_eq, map_map. f_equal.
      apply map_ext_Forall. eapply Forall_impl; [exact IH |]. intros k Hk. apply Hk.
    + rewrite map_map. f_equal.
      apply map_ext_Forall. eapply Forall_impl; [exact IH |]. intros k Hk. apply Hk.
Qed.

Lemma paint_bind_highlight (cp : string) (p : option string) (k : Layer) :
  paint cp p (bind_highlight k) = bind_highlight (paint cp p k).
Proof.
  destruct k as [[props |] c ls [|] | [props |] s kids ls [|]]; reflexivity.
Qed.

Lemma paint_attachHighlightHandlers (cp : string) (l : Layer) :
  paint cp None (attachHighlightHandlers l) = attachHighlightHandlers (paint cp None l).
Proof.
  destruct l as [[props |] c ls b | [props |] s kids ls b]; simpl; try reflexivity;
    rewrite !map_map; f_equal; apply map_ext; intros k; apply paint_bind_highlight.
Qed.

Lemma bind_highlight_idem (k : Layer) :
  bind_highlight (bind_highlight k) = bind_highlight k.
Proof. destruct k as [f c ls [|] | f s kids ls [|]]; reflexivity. Qed.

Lemma attachHighlightHandlers_idem (l : Layer) :
  attachHighlightHandlers (attachHighlightHandlers l) = attachHighlightHandlers l.
Proof.
  destruct l as [f c ls b | f s kids ls b]; simpl; [reflexivity |].
  rewrite map_map. f_equal. apply map_ext. apply bind_highlight_idem.
Qed.

(** Recolouring and binding a layer that has just been recoloured and
    bound for the same metric changes nothing. *)
Lemma reenter_layer (lyr : Layer) (m : Metric) :
  attachHighlightHandlers
    (recolorLayerByMetric (attachHighlightHandlers (recolorLayerByMetric lyr m)) m)
  = attachHighlightHandlers (recolorLayerByMetric lyr m).
Proof.
  rewrite !recolorLayerByMetric_paint, paint_attachHighlightHandlers, paint_idem.
  apply attachHighlightHandlers_idem.
Qed.

Lemma features_bind_highlight (k : Layer) : features (bind_highlight k) = features k.
Proof. destruct k as [f c ls [|] | f s kids ls [|]]; reflexivity. Qed.

Lemma flat_map_ext_Forall {A B} (f g : A -> list B) (l : list A) :
  Forall (fun x => f x = g x) l -> flat_map f l = flat_map g l.
Proof. induction 1 as [| x l Hx _ IH]; simpl; [reflexivity | now rewrite Hx, IH]. Qed.

Lemma features_attachHighlightHandlers (l : Layer) :
  features (attachHighlightHandlers l) = features l.
Proof.
  destruct l as [f c ls b | f s kids ls b]; simpl; [reflexivity |]. f_equal.
  rewrite flat_map_concat_map, map_map, <- flat_map_concat_map.
  apply flat_map_ext_Forall, Forall_forall. intros k _. apply features_bind_highlight.
Qed.

Lemma features_paint (cp : string) (l : Layer) :
  forall p : option string,
    features (paint cp p l)
    = map (fun props => <["cur_color" := js_or (props !! cp) "#cccccc"]> props)
          (features l).
Proof.
  induction l as [f c ls b | f s kids ls b IH] using Layer_forall_ind; intros p.
  - destruct f; reflexivity.
  - assert (Hk : forall q, flat_map features (map (paint cp q) kids)
             = map (fun props => <["cur_color" := js_or (props !! cp) "#cccccc"]> props)
                   (flat_map features kids)).
    { intros q. clear -IH. induction IH as [| k kids Hk _ IHk]; simpl; [reflexivity |].
      rewrite Hk, IHk, map_app. reflexivity. }
    destruct f as [props |]; simpl; rewrite Hk; reflexivity.
Qed.

End LayerFacts.

(** ** ClientController: transitions *)

Section TransitionFacts.

Local Close Scope Q_scope.
Import Controller.

Variable LEGEND_BY_METRIC : Metric -> Legend.legend_html.
Variable YEAR_TO_VARNAME : gmap string string.

Abbreviation hideAllYears := (Controller.hideAllYears YEAR_TO_VARNAME).
Abbreviation showYearAndMetric :=
  (Controller.showYearAndMetric LEGEND_BY_METRIC YEAR_TO_VARNAME).
Abbreviation year_var := (Controller.year_var YEAR_TO_VARNAME).

Lemma hide_year_fields (entry : string * string) (pg : Page) :
  window (hide_year entry pg) = window pg /\
  legend (hide_year entry pg) = legend pg /\
  console (hide_year entry pg) = console pg /\
  forall v : string,
    v ∈ map_layers (hide_year entry pg) <->
    v ∈ map_layers pg /\ ~ (v = entry.2 /\ is_Some (window pg !! v)).
Proof.
  unfold hide_year, layerFromVar.
  destruct (window pg !! entry.2) as [lyr |] eqn:E.
  - case_bool_decide as Hin; simpl; (split; [reflexivity |]);
      (split; [reflexivity |]); (split; [reflexivity |]); intros v.
    + rewrite elem_of_difference, elem_of_singleton. split.
      * intros [H1 H2]. split; [exact H1 |]. intros [H3 _]. exact (H2 H3).
      * intros [H1 H2]. split; [exact H1 |]. intros ->. apply H2.
        split; [reflexivity |]. rewrite E. eauto.
    + split.
      * intros H1. split; [exact H1 |]. intros [-> _]. exact (Hin H1).
      * intros [H1 _]. exact H1.
  - (split; [reflexivity |]); (split; [reflexivity |]); (split; [reflexivity |]).
    intros v. split.
    + intros H1. split; [exact H1 |]. intros [-> [x Hx]]. congruence.
    + intros [H1 _]. exact H1.
Qed.

Lemma hide_years_fields (entries : list (string * string)) (pg : Page) :
  window (foldr hide_year pg entries) = window pg /\
  legend (foldr hide_year pg entries) = legend pg /\
  console (foldr hide_year pg entries) = console pg /\
  forall v : string,
    v ∈ map_layers (foldr hide_year pg entries) <->
    v ∈ map_layers pg /\
    ~ (exists y : string, (y, v) ∈ entries /\ is_Some (window pg !! v)).
Proof.
  induction entries as [| [y0 v0] entries IH].
  - simpl. repeat split; try tauto. intros (y & Hy & _). inversion Hy.
  - destruct IH as (Hw & Hl & Hc & Hm).
    change (foldr hide_year pg ((y0, v0) :: entries))
      with (hide_year (y0, v0) (foldr hide_year pg entries)).
    destruct (hide_year_fields (y0, v0) (foldr hide_year pg entries))
      as (Hw' & Hl' & Hc' & Hm').
    split; [congruence |]. split; [congruence |]. split; [congruence |].
    intros v. rewrite Hm', Hm, Hw. simpl. split.
    + intros [[H1 H2] H3]. split; [exact H1 |].
      intros (y & Hy & Hs). apply elem_of_cons in Hy as [Hy | Hy].
      * injection Hy as -> ->. apply H3. split; [reflexivity | exact Hs].
      * apply H2. exists y. split; assumption.
    + intros [H1 H2]. split; [split; [exact H1 |] |].
      * intros (y & Hy & Hs). apply H2. exists y.
        split; [apply elem_of_cons; right; exact Hy | exact Hs].
      * intros [-> Hs]. apply H2. exists y0.
        split; [apply elem_of_cons; left; reflexivity | exact Hs].
Qed.

Lemma hideAllYears_window (pg : Page) : window (hideAllYears pg) = window pg.
Proof. apply hide_years_fields. Qed.

Lemma hideAllYears_legend (pg : Page) : legend (hideAllYears pg) = legend pg.
Proof. apply hide_years_fields. Qed.

Lemma hideAllYears_console (pg : Page) : console (hideAllYears pg) = console pg.
Proof. apply hide_years_fields. Qed.

(** After [hideAllYears] the layers on the map are those that were there
    and are not the layer of a year. *)
Lemma hideAllYears_map_layers (pg : Page) (v : string) :
  v ∈ map_layers (hideAllYears pg) <-> v ∈ map_layers pg /\ ~ year_var pg v.
Proof.
  destruct (hide_years_fields (map_to_list YEAR_TO_VARNAME) pg) as (_ & _ & _ & Hm).
  unfold Controller.hideAllYears. rewrite Hm. unfold Controller.year_var.
  split; intros [H1 H2]; (split; [exact H1 |]); intros (y & Hy & Hs); apply H2;
    exists y; (split; [| exact Hs]).
  - by apply elem_of_map_to_list.
  - by apply elem_of_map_to_list in Hy.
Qed.

Lemma show_found (m : Metric) (y v : string) (lyr : Layer) (pg : Page) :
  YEAR_TO_VARNAME !! y = Some v ->
  window pg !! v = Some lyr ->
  showYearAndMetric m y pg =
  {| window := <[v := attachHighlightHandlers (recolorLayerByMetric lyr m)]> (window pg);
     map_layers := map_layers (hideAllYears pg) ∪ {[v]};
     legend := Some (LEGEND_BY_METRIC m);
     console := console pg |}.
Proof.
  intros Hy Hv. unfold Controller.showYearAndMetric. rewrite Hy. simpl.
  unfold layerFromVar at 1. rewrite hideAllYears_window, Hv.
  unfold layerFromVar, addLegend, removeLegend, set_layer, addLayer. simpl.
  rewrite lookup_insert_eq. simpl.
  rewrite insert_insert_eq, hideAllYears_window, hideAllYears_console. reflexivity.
Qed.

Lemma show_missing (m : Metric) (y : string) (pg : Page) :
  YEAR_TO_VARNAME !! y ≫= layerFromVar pg = None ->
  showYearAndMetric m y pg =
  console_error y (YEAR_TO_VARNAME !! y) (hideAllYears pg).
Proof.
  intros H. unfold Controller.showYearAndMetric. cbv zeta.
  destruct (YEAR_TO_VARNAME !! y) as [v |]; [| reflexivity].
  simpl in *. unfold layerFromVar in *. rewrite hideAllYears_window, H.
  reflexivity.
Qed.

Lemma year_var_window (pg pg' : Page) (v : string) :
  (forall x, is_Some (window pg' !! x) <-> is_Some (window pg !! x)) ->
  year_var pg' v <-> year_var pg v.
Proof.
  intros Hdom. unfold Controller.year_var.
  split; intros (y & Hy & Hs); exists y; (split; [exact Hy |]); by apply Hdom.
Qed.

(** C5. Entering the same view twice in a row leaves the page as entering
    it once does: the same layers on the map, the same legend, and the same
    layer objects, hence the same feature colours and the same registered
    hover handlers; the second entry registers none. *)
Theorem reenter_same_view (m : Metric) (y : string) (pg : Page) :
  let once := showYearAndMetric m y pg in
  let twice := showYearAndMetric m y once in
  window twice = window once /\
  map_layers twice = map_layers once /\
  legend twice = legend once.
Proof.
  assert (Hhide : forall pg1 : Page,
            (forall x, is_Some (window pg1 !! x) <-> is_Some (window pg !! x)) ->
            (forall x, x ∈ map_layers pg1 -> x ∈ map_layers (hideAllYears pg) \/ year_var pg x) ->
            (forall x, x ∈ map_layers (hideAllYears pg) -> x ∈ map_layers pg1) ->
            map_layers (hideAllYears pg1) = map_layers (hideAllYears pg)).
  { intros pg1 Hdom Hsub Hsup. apply set_eq. intros x.
    rewrite (hideAllYears_map_layers pg1), (year_var_window pg pg1 x Hdom). split.
    - intros [H1 H2]. destruct (Hsub x H1) as [H | H]; [exact H | contradiction].
    - intros H. split; [apply Hsup; exact H |].
      apply hideAllYears_map_layers in H. tauto. }
  destruct (YEAR_TO_VARNAME !! y ≫= layerFromVar pg) as [lyr |] eqn:E.
  - destruct (YEAR_TO_VARNAME !! y) as [v |] eqn:Hy; [| discriminate].
    simpl in E. unfold layerFromVar in E.
    rewrite (show_found m y v lyr pg Hy E).
    set (once := {| window := _ |}).
    assert (Hv : window once !! v
                 = Some (attachHighlightHandlers (recolorLayerByMetric lyr m))).
    { subst once. simpl. apply lookup_insert_eq. }
    cbv zeta. rewrite (show_found m y v _ once Hy Hv).
    subst once. simpl. split; [| split; [| reflexivity]].
    + rewrite reenter_layer, insert_insert_eq. reflexivity.
    + f_equal. apply Hhide; simpl.
      * intros x. destruct (decide (v = x)) as [<- | Hne].
        -- rewrite lookup_insert_eq, E. split; eauto.
        -- rewrite lookup_insert_ne by exact Hne. reflexivity.
      * intros x. rewrite elem_of_union, elem_of_singleton.
        intros [H | ->]; [left; exact H | right].
        exists y. split; [exact Hy | rewrite E; eauto].
      * intros x H. apply elem_of_union. left. exact H.
  - rewrite (show_missing m y pg E).
    set (once := console_error _ _ _).
    assert (E' : YEAR_TO_VARNAME !! y ≫= layerFromVar once = None).
    { subst once. destruct (YEAR_TO_VARNAME !! y) as [v |]; [| reflexivity].
      simpl in *. unfold layerFromVar in *. simpl.
      rewrite hideAllYears_window. exact E. }
    cbv zeta. rewrite (show_missing m y once E').
    subst once. unfold console_error. simpl.
    rewrite !hideAllYears_window, !hideAllYears_legend. simpl.
    rewrite ?hideAllYears_window, ?hideAllYears_legend.
    split; [reflexivity |]. split; [| reflexivity].
    apply Hhide; simpl.
    + intros x. rewrite ?hideAllYears_window. reflexivity.
    + intros x H. left. exact H.
    + intros x H. exact H.
Qed.

(** C1, as the code has it. When the requested year has no layer, the
    error is written to the console, the layer objects (and so the colours
    of their features) and the legend are left as they were, and every year
    layer is taken off the map: the layer that was shown does not stay. *)
Theorem show_missing_year (m : Metric) (y : string) (pg : Page) :
  YEAR_TO_VARNAME !! y ≫= layerFromVar pg = None ->
  console (showYearAndMetric m y pg)
    = (console pg ++ [(y, YEAR_TO_VARNAME !! y)])%list /\
  window (showYearAndMetric m y pg) = window pg /\
  legend (showYearAndMetric m y pg) = legend pg /\
  forall v : string,
    v ∈ map_layers (showYearAndMetric m y pg) <->
    v ∈ map_layers pg /\ ~ year_var pg v.
Proof.
  intros E. rewrite (show_missing m y pg E). simpl.
  rewrite hideAllYears_console, hideAllYears_window, hideAllYears_legend.
  split; [reflexivity |]. split; [reflexivity |]. split; [reflexivity |].
  intros v. apply hideAllYears_map_layers.
Qed.

Lemma color_prop_ne (m : Metric) : "cur_color" <> "color_" ++ metric_name m.
Proof. destruct m; vm_compute; discriminate. Qed.

Lemma colors_present_recolor (cp : string) (props : gmap string string) :
  colors_present props ->
  colors_present (<["cur_color" := js_or (props !! cp) "#cccccc"]> props).
Proof.
  intros H m. destruct (H m) as (c & Hc & Hne). exists c.
  rewrite lookup_insert_ne by apply color_prop_ne. split; assumption.
Qed.

Lemma show_well_formed (m : Metric) (y : string) (pg : Page) :
  well_formed pg -> well_formed (showYearAndMetric m y pg).
Proof.
  intros Hwf.
  destruct (YEAR_TO_VARNAME !! y ≫= layerFromVar pg) as [lyr |] eqn:E.
  - destruct (YEAR_TO_VARNAME !! y) as [v |] eqn:Hy; [| discriminate].
    simpl in E. unfold layerFromVar in E.
    rewrite (show_found m y v lyr pg Hy E).
    intros v' lyr' props Hv' Hin. simpl in Hv'.
    destruct (decide (v = v')) as [<- | Hne].
    + rewrite lookup_insert_eq in Hv'. injection Hv' as <-.
      rewrite features_attachHighlightHandlers, recolorLayerByMetric_paint,
        features_paint in Hin.
      apply list_elem_of_In, in_map_iff in Hin as (props0 & <- & Hin0).
      apply colors_present_recolor. apply (Hwf v lyr props0 E).
      apply list_elem_of_In. exact Hin0.
    + rewrite lookup_insert_ne in Hv' by exact Hne. exact (Hwf v' lyr' props Hv' Hin).
  - rewrite (show_missing m y pg E).
    intros v' lyr' props Hv' Hin. simpl in Hv'. rewrite hideAllYears_window in Hv'.
    exact (Hwf v' lyr' props Hv' Hin).
Qed.

Lemma show_view_consistent (m : Metric) (y : string) (pg : Page) :
  well_formed pg ->
  view_consistent YEAR_TO_VARNAME m (showYearAndMetric m y pg).
Proof.
  intros Hwf.
  destruct (YEAR_TO_VARNAME !! y ≫= layerFromVar pg) as [lyr |] eqn:E.
  - destruct (YEAR_TO_VARNAME !! y) as [v |] eqn:Hy; [| discriminate].
    simpl in E. unfold layerFromVar in E.
    rewrite (show_found m y v lyr pg Hy E).
    intros y' v' lyr' props Hy' Hon Hv' Hin. simpl in Hon, Hv'.
    destruct (decide (v = v')) as [<- | Hne].
    + rewrite lookup_insert_eq in Hv'. injection Hv' as <-.
      rewrite features_attachHighlightHandlers, recolorLayerByMetric_paint,
        features_paint in Hin.
      apply list_elem_of_In, in_map_iff in Hin as (props0 & <- & Hin0).
      rewrite lookup_insert_eq, lookup_insert_ne by apply color_prop_ne.
      destruct (Hwf v lyr props0 E ltac:(apply list_elem_of_In; exact Hin0) m)
        as (c & Hc & Hne).
      rewrite Hc. simpl. rewrite decide_False by exact Hne. reflexivity.
    + rewrite lookup_insert_ne in Hv' by exact Hne.
      apply elem_of_union in Hon as [Hon | Hon]; [| apply elem_of_singleton in Hon; congruence].
      apply hideAllYears_map_layers in Hon as [_ Hon]. exfalso. apply Hon.
      exists y'. split; [exact Hy' | rewrite Hv'; eauto].
  - rewrite (show_missing m y pg E).
    intros y' v' lyr' props Hy' Hon Hv' Hin. simpl in Hon, Hv'.
    rewrite hideAllYears_window in Hv'.
    apply hideAllYears_map_layers in Hon as [_ Hon]. exfalso. apply Hon.
    exists y'. split; [exact Hy' | rewrite Hv'; eauto].
Qed.

(** When the year has a layer, that layer is on the map after the
    transition. *)
Lemma show_attaches (m : Metric) (y v : string) (lyr : Layer) (pg : Page) :
  YEAR_TO_VARNAME !! y = Some v ->
  window pg !! v = Some lyr ->
  v ∈ map_layers (showYearAndMetric m y pg).
Proof.
  intros Hy Hv. rewrite (show_found m y v lyr pg Hy Hv). simpl.
  apply elem_of_union. right. apply elem_of_singleton. reflexivity.
Qed.

End TransitionFacts.

(** ** The generated page *)

Section ArtifactFacts.

Local Close Scope Q_scope.
Import Scene Controller Artifact.

Variable gdfs : Z -> list Row.
Variable get_name : Z -> string.

Lemma color_for_total (m : Metric) (v : option Q) :
  exists c : string, color_for gdfs m v = Some c /\ c <> "".
Proof.
  destruct v as [v |].
  - unfold color_for, PALETTES.
    destruct (call_total (ranges gdfs m).1 (ranges gdfs m).2 v) as [c Hc].
    exists c. split; [exact Hc |]. intros ->.
    apply call_length in Hc. simpl in Hc. lia.
  - exists NO_DATA_COLOR. split; [reflexivity | discriminate].
Qed.

Lemma feature_properties_total (r : Row) :
  exists props : gmap string string,
    feature_properties gdfs r = Some props /\ colors_present props.
Proof.
  unfold feature_properties.
  destruct (color_for_total avg_tip (row_avg_tip r)) as (c1 & -> & H1).
  destruct (color_for_total med_tip (row_med_tip r)) as (c2 & -> & H2).
  destruct (color_for_total avg_rate (row_avg_rate r)) as (c3 & -> & H3).
  simpl. eexists. split; [reflexivity |].
  intros [| |]; [exists c1 | exists c2 | exists c3]; (split; [| assumption]).
  - change ("color_" ++ metric_name avg_tip) with "color_avg_tip". by simplify_map_eq.
  - change ("color_" ++ metric_name med_tip) with "color_med_tip". by simplify_map_eq.
  - change ("color_" ++ metric_name avg_rate) with "color_avg_rate". by simplify_map_eq.
Qed.

Lemma row_layer_total (r : Row) :
  exists k : Layer,
    row_layer gdfs r = Some k /\ Forall colors_present (features k).
Proof.
  unfold row_layer.
  destruct (feature_properties_total r) as (props & -> & Hp). simpl.
  eexists. split; [reflexivity |]. simpl. repeat constructor. exact Hp.
Qed.

Lemma year_layer_total (y : Z) :
  exists fg : Layer,
    year_layer gdfs y = Some fg /\ Forall colors_present (features fg).
Proof.
  unfold year_layer.
  destruct (mapM (row_layer gdfs) (gdfs y)) as [kids |] eqn:E.
  - simpl. eexists. split; [reflexivity |]. simpl.
    apply mapM_Some_1 in E.
    induction E as [| r k rows kids Hk _ IH]; simpl; [constructor |].
    apply Forall_app. split; [| exact IH].
    destruct (row_layer_total r) as (k' & Hk' & Hf). congruence.
  - exfalso. apply mapM_None_1, Exists_exists in E as (r & _ & Hr).
    destruct (row_layer_total r) as (k & Hk & _). congruence.
Qed.

Lemma legend_for_metric_total (m : Metric) : is_Some (legend_for_metric gdfs m).
Proof.
  unfold legend_for_metric, Legend.make_continuous_legend_html. cbv zeta.
  match goal with
  | |- context [mapM ?f ?l] => destruct (mapM f l) as [cols |] eqn:E
  end; [simpl; eauto |].
  exfalso. apply mapM_None_1, Exists_exists in E as (v & _ & Hv).
  change (Palette.call (Palette.scale (ranges gdfs m).1 (ranges gdfs m).2) v = None) in Hv.
  destruct (call_total (ranges gdfs m).1 (ranges gdfs m).2 v) as [c Hc]. congruence.
Qed.

Lemma globals_lookup (fgs : list (Z * Layer)) :
  forall (w : gmap string Layer) (v : string) (lyr : Layer),
    foldl (fun w yfg => <[get_name yfg.1 := yfg.2]> w) w fgs !! v = Some lyr ->
    w !! v = Some lyr \/ exists y, (y, lyr) ∈ fgs.
Proof.
  induction fgs as [| [y fg] fgs IH]; intros w v lyr H; simpl in H; [by left |].
  apply IH in H as [H | (y' & H)].
  - destruct (decide (get_name y = v)) as [<- | Hne].
    + rewrite lookup_insert_eq in H. injection H as <-.
      right. exists y. apply elem_of_cons. by left.
    + rewrite lookup_insert_ne in H by exact Hne. by left.
  - right. exists y'. apply elem_of_cons. by right.
Qed.

(** The build succeeds on every input, and the features of the page it
    generates carry their three precomputed colours. *)
Lemma build_total :
  exists a : artifact,
    build gdfs get_name = Some a /\
    forall shown : gset string, well_formed (loaded a shown).
Proof.
  unfold build.
  destruct (legend_for_metric_total avg_tip) as [l1 ->].
  destruct (legend_for_metric_total med_tip) as [l2 ->].
  destruct (legend_for_metric_total avg_rate) as [l3 ->].
  cbn [mbind option_bind].
  match goal with
  | |- context [mapM ?f YEARS] => destruct (mapM f YEARS) as [fgs |] eqn:E
  end.
  - simpl. eexists. split; [reflexivity |].
    intros shown v lyr props Hv Hin. simpl in Hv.
    apply globals_lookup in Hv as [Hv | (y & Hy)]; [by rewrite lookup_empty in Hv |].
    apply mapM_Some_1 in E.
    apply list_elem_of_lookup in Hy as (i & Hi).
    destruct (Forall2_lookup_r _ _ _ _ _ E Hi) as (y0 & _ & Hy0).
    destruct (year_layer_total y0) as (fg & Hfg & Hf).
    rewrite Hfg in Hy0. simpl in Hy0. injection Hy0 as _ <-.
    rewrite Forall_forall in Hf. apply Hf. exact Hin.
  - exfalso. apply mapM_None_1, Exists_exists in E as (y & _ & Hy).
    destruct (year_layer_total y) as (fg & Hfg & _).
    rewrite Hfg in Hy. discriminate.
Qed.

End ArtifactFacts.

Section RunFacts.

Local Close Scope Q_scope.
Import Scene Controller Artifact.

Lemma run_snoc (a : artifact) (shown : gset string)
    (sels : list (Metric * string)) (sel : Metric * string) :
  run a shown (sels ++ [sel]) = enter a sel (run a shown sels).
Proof. unfold run. rewrite foldl_app. reflexivity. Qed.

Lemma run_well_formed (a : artifact) (shown : gset string) (sels : list (Metric * string)) :
  well_formed (loaded a shown) -> well_formed (run a shown sels).
Proof.
  intros Hwf. induction sels as [| sel sels IH] using rev_ind.
  - apply show_well_formed. exact Hwf.
  - rewrite run_snoc. apply show_well_formed. exact IH.
Qed.

(** C2. The build succeeds, and after the boot transition followed by any
    finite sequence of selections, every feature of every year layer on the
    map has its [cur_color] equal to its precomputed colour for the metric
    of the view entered last. *)
Theorem view_consistent_after_run (gdfs : Z -> list Row) (get_name : Z -> string)
    (shown : gset string) (sels : list (Metric * string)) :
  exists a : artifact,
    build gdfs get_name = Some a /\
    view_consistent (YEAR_TO_VARNAME a) (active_metric sels) (run a shown sels).
Proof.
  destruct (build_total gdfs get_name) as (a & Ha & Hwf).
  exists a. split; [exact Ha |].
  specialize (Hwf shown).
  destruct sels as [| sel sels _] using rev_ind.
  - apply show_view_consistent. exact Hwf.
  - rewrite run_snoc. unfold active_metric. rewrite last_last.
    apply show_view_consistent. apply run_well_formed. exact Hwf.
Qed.

End RunFacts.

(** ** Examples on the small page *)

Section Examples.

Local Close Scope Q_scope.
Import Scene Controller Artifact.

Lemma show_missing_year_witness :
  demo_years !! "2023" ≫= layerFromVar demo_page = None /\
  console (showYearAndMetric demo_legend demo_years med_tip "2023" demo_page)
    = [("2023", None)] /\
  window (showYearAndMetric demo_legend demo_years med_tip "2023" demo_page)
    = window demo_page /\
  legend (showYearAndMetric demo_legend demo_years med_tip "2023" demo_page)
    = legend demo_page /\
  forall v : string,
    v ∈ map_layers (showYearAndMetric demo_legend demo_years med_tip "2023" demo_page) <->
    v ∈ map_layers demo_page /\ ~ year_var demo_years demo_page v.
Proof.
  split; [reflexivity |].
  apply (show_missing_year demo_legend demo_years med_tip "2023" demo_page).
  reflexivity.
Defined.

(** C1, as stated, fails: on the page built from the small tables, with the
    layer of 2015 on the map after the boot transition, a transition to the
    year 2023, which has no layer, takes the layer of 2015 off the map. *)
Lemma missing_year_detaches_layer :
  exists a : artifact,
    build demo_gdfs demo_name = Some a /\
    YEAR_TO_VARNAME a !! "2023" = None /\
    "feature_group_2015" ∈ map_layers (wireControls a (loaded a ∅)) /\
    ~ "feature_group_2015"
        ∈ map_layers (enter a (med_tip, "2023") (wireControls a (loaded a ∅))).
Proof.
  destruct (build demo_gdfs demo_name) as [a |] eqn:E.
  - exists a. split; [reflexivity |].
    assert (H : (YEAR_TO_VARNAME a !! "2023",
                 bool_decide ("feature_group_2015" ∈ map_layers (wireControls a (loaded a ∅))),
                 bool_decide ("feature_group_2015"
                    ∈ map_layers (enter a (med_tip, "2023") (wireControls a (loaded a ∅)))))
                = (None, true, false)).
    { assert (Hb : (a' ← build demo_gdfs demo_name;
                    Some (YEAR_TO_VARNAME a' !! "2023",
                          bool_decide ("feature_group_2015" ∈ map_layers (wireControls a' (loaded a' ∅))),
                          bool_decide ("feature_group_2015"
                             ∈ map_layers (enter a' (med_tip, "2023") (wireControls a' (loaded a' ∅))))))
                   = Some (None, true, false)) by (vm_compute; reflexivity).
      rewrite E in Hb. simpl in Hb. injection Hb as -> -> ->. reflexivity. }
    injection H as H1 H2 H3.
    split; [exact H1 |]. split.
    + apply bool_decide_eq_true in H2. exact H2.
    + apply bool_decide_eq_false in H3. exact H3.
  - exfalso. destruct (build_total demo_gdfs demo_name) as (a & Ha & _). congruence.
Qed.

(** On the small page, after the selections (med_tip, 2016) the layer of
    2016 is on the map and its two features show their median-tip colours;
    the second one has no median tip and shows the no-data colour. *)
Example run_demo :
  exists (a : artifact) (lyr : Layer),
    build demo_gdfs demo_name = Some a /\
    YEAR_TO_VARNAME a !! "2016" = Some "feature_group_2016" /\
    "feature_group_2016" ∈ map_layers (run a ∅ [(med_tip, "2016")]) /\
    window (run a ∅ [(med_tip, "2016")]) !! "feature_group_2016" = Some lyr /\
    map (fun props : gmap string string => props !! "cur_color") (features lyr)
    = [Some "#006837ff"; Some "#cccccc"].
Proof.
  destruct (build demo_gdfs demo_name) as [a |] eqn:E.
  - assert (Hb : (a' ← build demo_gdfs demo_name;
                  Some (YEAR_TO_VARNAME a' !! "2016",
                        bool_decide ("feature_group_2016" ∈ map_layers (run a' ∅ [(med_tip, "2016")])),
                        (fun lyr => map (fun props : gmap string string => props !! "cur_color")
                                        (features lyr))
                          <$> (window (run a' ∅ [(med_tip, "2016")]) !! "feature_group_2016")))
                 = Some (Some "feature_group_2016", true,
                         Some [Some "#006837ff"; Some "#cccccc"]))
      by (vm_compute; reflexivity).
    rewrite E in Hb. simpl in Hb. injection Hb as H1 H2 H3.
    destruct (window (run a ∅ [(med_tip, "2016")]) !! "feature_group_2016")
      as [lyr |] eqn:El; [| discriminate].
    exists a, lyr. split; [reflexivity |]. split; [exact H1 |].
    split; [apply bool_decide_eq_true in H2; exact H2 |].
    split; [exact El |]. simpl in H3. injection H3 as H3. exact H3.
  - exfalso. destruct (build_total demo_gdfs demo_name) as (a & Ha & _). congruence.
Qed.

(** On the hand-made page, entering (med_tip, 2015) binds the two hover
    handlers on the feature layer of the year, and entering it again binds
    nothing more. *)
Example reenter_demo_listeners :
  let once := showYearAndMetric demo_legend demo_years med_tip "2015" demo_page in
  let twice := showYearAndMetric demo_legend demo_years med_tip "2015" once in
  (map listeners ∘ layers <$> window demo_page !! "feature_group_2015") = Some [[]] /\
  (map listeners ∘ layers <$> window once !! "feature_group_2015")
    = Some [[("mouseover", highlight); ("mouseout", baseline)]] /\
  (map listeners ∘ layers <$> window twice !! "feature_group_2015")
    = Some [[("mouseover", highlight); ("mouseout", baseline)]].
Proof. vm_compute. repeat split. Qed.

End Examples.

(** ** RangeCalculator: order statistics *)

Section QuantileFacts.

Local Open Scope Q_scope.
Import Range.

Lemma insert_sorted_In (x y : Q) (l : list Q) :
  In y (insert_sorted x l) <-> y = x \/ In y l.
Proof.
  induction l as [| z l IH]; simpl; [intuition congruence |].
  destruct (Qle_bool x z); simpl; [intuition congruence |].
  rewrite IH. intuition congruence.
Qed.

Lemma sort_In (y : Q) (l : list Q) : In y (sort l) <-> In y l.
Proof.
  induction l as [| x l IH]; simpl; [tauto |].
  rewrite insert_sorted_In, IH. intuition congruence.
Qed.

Lemma insert_sorted_length (x : Q) (l : list Q) :
  length (insert_sorted x l) = S (length l).
Proof.
  induction l as [| z l IH]; simpl; [reflexivity |].
  destruct (Qle_bool x z); simpl; [reflexivity | now rewrite IH].
Qed.

Lemma sort_length (l : list Q) : length (sort l) = length l.
Proof.
  induction l as [| x l IH]; simpl; [reflexivity |].
  now rewrite insert_sorted_length, IH.
Qed.

Lemma insert_sorted_sorted (x : Q) (l : list Q) :
  StronglySorted Qle l -> StronglySorted Qle (insert_sorted x l).
Proof.
  induction 1 as [| z l Hs IH Hz]; simpl.
  - repeat constructor.
  - destruct (Qle_bool x z) eqn:E.
    + apply Qle_bool_iff in E. constructor; [constructor; assumption |].
      constructor; [exact E |].
      eapply List.Forall_impl; [| exact Hz]. intros a Ha. simpl in Ha. lra.
    + assert (Hzx : z <= x).
      { destruct (Qlt_le_dec z x) as [H | H]; [lra |].
        apply Qle_bool_iff in H. congruence. }
      constructor; [exact IH |].
      apply List.Forall_forall. intros a Ha. apply insert_sorted_In in Ha as [-> | Ha].
      * exact Hzx.
      * rewrite List.Forall_forall in Hz. apply Hz. exact Ha.
Qed.

Lemma sort_sorted (l : list Q) : StronglySorted Qle (sort l).
Proof.
  induction l as [| x l IH]; simpl; [constructor | apply insert_sorted_sorted, IH].
Qed.

Lemma sorted_nth_le (l : list Q) :
  StronglySorted Qle l ->
  forall i j : nat, (i <= j)%nat -> (j < length l)%nat -> nth i l 0 <= nth j l 0.
Proof.
  induction 1 as [| a l Hs IH Ha]; intros i j Hij Hj; simpl in Hj; [lia |].
  destruct i as [| i], j as [| j]; simpl; try lia.
  - lra.
  - rewrite List.Forall_forall in Ha. apply Ha. apply nth_In. lia.
  - apply IH; lia.
Qed.

(** A quantile is the linear interpolation of two neighbouring order
    statistics (or one of them) at the virtual index. *)
Lemma nanquantile_bracket (arr : list Q) (q : Q) :
  arr <> [] -> 0 <= q <= 1 ->
  exists (i j : nat),
    (i <= j)%nat /\ (j <= S i)%nat /\ (j < length arr)%nat /\
    inject_Z (Z.of_nat i) <= inject_Z (Z.of_nat (length arr) - 1) * q /\
    inject_Z (Z.of_nat (length arr) - 1) * q <= inject_Z (Z.of_nat j) /\
    nanquantile arr q ==
      lerp (nth i (sort arr) 0) (nth j (sort arr) 0)
           (inject_Z (Z.of_nat (length arr) - 1) * q - inject_Z (Z.of_nat i)).
Proof.
  intros Hne [Hq0 Hq1]. unfold nanquantile.
  pose proof (sort_length arr) as Hl.
  set (s := sort arr) in *.
  assert (Hn : (0 < length arr)%nat) by (destruct arr; [congruence | simpl; lia]).
  set (n := Z.of_nat (length arr)) in *.
  assert (Hn1 : 0 <= inject_Z (n - 1)).
  { change 0 with (inject_Z 0). rewrite <- Zle_Qle. lia. }
  set (v := inject_Z (n - 1) * q) in *.
  assert (Hv0 : 0 <= v) by (subst v; apply Qmult_le_0_compat; assumption).
  assert (Hv1 : v <= inject_Z (n - 1)).
  { subst v. rewrite <- (Qmult_1_r (inject_Z (n - 1))) at 2.
    rewrite !(Qmult_comm (inject_Z (n - 1))). apply Qmult_le_compat_r; assumption. }
  cbv zeta. destruct (Qle_bool (inject_Z (n - 1)) v) eqn:Ea.
  - apply Qle_bool_iff in Ea.
    exists (length arr - 1)%nat, (length arr - 1)%nat.
    assert (Hz : Z.to_nat (n - 1) = (length arr - 1)%nat) by lia.
    unfold item. rewrite Hz. unfold lerp.
    assert (Hi : inject_Z (Z.of_nat (length arr - 1)) == inject_Z (n - 1)).
    { replace (Z.of_nat (length arr - 1)) with (n - 1)%Z by lia. reflexivity. }
    split; [lia |]. split; [lia |]. split; [lia |].
    split; [lra |]. split; [lra |]. ring.
  - assert (Ha : v < inject_Z (n - 1)).
    { destruct (Qlt_le_dec v (inject_Z (n - 1))) as [H | H]; [exact H |].
      apply Qle_bool_iff in H. congruence. }
    assert (Eb : Qlt_bool v 0 = false) by (apply Qlt_bool_false; exact Hv0).
    rewrite Eb.
    destruct (floor_spec v) as [Hf1 Hf2].
    set (f := Qfloor v) in *.
    assert (Hf0 : (0 <= f)%Z).
    { change 0%Z with (Qfloor 0). apply Qfloor_resp_le. exact Hv0. }
    assert (Hfn : (f < n - 1)%Z).
    { rewrite Zlt_Qlt. lra. }
    exists (Z.to_nat f), (S (Z.to_nat f)).
    unfold item.
    replace (Z.to_nat (f + 1)) with (S (Z.to_nat f)) by lia.
    assert (Hi : inject_Z (Z.of_nat (Z.to_nat f)) == inject_Z f).
    { rewrite Z2Nat.id by lia. reflexivity. }
    assert (Hj : inject_Z (Z.of_nat (S (Z.to_nat f))) == inject_Z f + 1).
    { rewrite Nat2Z.inj_succ, Z2Nat.id by lia. unfold Z.succ.
      rewrite inject_Z_plus. reflexivity. }
    split; [lia |]. split; [lia |]. split; [lia |].
    split; [lra |]. split; [lra |]. rewrite Z2Nat.id by lia. reflexivity.
Qed.

(** A quantile lies between the two order statistics that bracket it. *)
Lemma nanquantile_between (arr : list Q) (q : Q) :
  arr <> [] -> 0 <= q <= 1 ->
  exists (i j : nat),
    (i <= j)%nat /\ (j < length arr)%nat /\
    nth i (sort arr) 0 <= nanquantile arr q /\
    nanquantile arr q <= nth j (sort arr) 0.
Proof.
  intros Hne Hq.
  destruct (nanquantile_bracket arr q Hne Hq) as (i & j & Hij & Hji & Hj & Hvi & Hvj & E).
  exists i, j. split; [exact Hij |]. split; [exact Hj |].
  pose proof (sorted_nth_le (sort arr) (sort_sorted arr) i j Hij
                ltac:(rewrite sort_length; exact Hj)) as Hab.
  rewrite E. unfold lerp.
  set (a := nth i (sort arr) 0) in *. set (b := nth j (sort arr) 0) in *.
  set (g := inject_Z (Z.of_nat (length arr) - 1) * q - inject_Z (Z.of_nat i)) in *.
  assert (Hg : 0 <= g /\ g <= 1).
  { subst g. split; [lra |].
    assert (inject_Z (Z.of_nat j) <= inject_Z (Z.of_nat i) + 1).
    { change 1 with (inject_Z 1). rewrite <- inject_Z_plus, <- Zle_Qle. lia. }
    lra. }
  assert (Hm : 0 <= (b - a) * g) by (apply Qmult_le_0_compat; lra).
  assert (Hm' : (b - a) * g <= (b - a) * 1).
  { rewrite !(Qmult_comm (b - a)). apply Qmult_le_compat_r; lra. }
  split; lra.
Qed.

(** Quantiles grow with the fraction asked for. *)
Lemma nanquantile_mono (arr : list Q) (q1 q2 : Q) :
  arr <> [] -> 0 <= q1 -> q1 <= q2 -> q2 <= 1 ->
  nanquantile arr q1 <= nanquantile arr q2.
Proof.
  intros Hne H0 H12 H1.
  destruct (nanquantile_bracket arr q1 Hne ltac:(split; lra))
    as (i1 & j1 & Hij1 & Hji1 & Hj1 & Hvi1 & Hvj1 & E1).
  destruct (nanquantile_bracket arr q2 Hne ltac:(split; lra))
    as (i2 & j2 & Hij2 & Hji2 & Hj2 & Hvi2 & Hvj2 & E2).
  pose proof (sort_sorted arr) as Hs. pose proof (sort_length arr) as Hl.
  set (s := sort arr) in *.
  set (n1 := inject_Z (Z.of_nat (length arr) - 1)) in *.
  assert (Hn1 : 0 <= n1).
  { subst n1. change 0 with (inject_Z 0). rewrite <- Zle_Qle.
    destruct arr; [congruence | simpl length; lia]. }
  assert (Hv : n1 * q1 <= n1 * q2).
  { rewrite !(Qmult_comm n1). apply Qmult_le_compat_r; assumption. }
  assert (Hnat : forall a b : nat, inject_Z (Z.of_nat a) <= inject_Z (Z.of_nat b) -> (a <= b)%nat).
  { intros a b H. rewrite <- Zle_Qle in H. lia. }
  assert (Hi1j2 : (i1 <= j2)%nat) by (apply Hnat; lra).
  assert (HS : forall a : nat, inject_Z (Z.of_nat (S a)) == inject_Z (Z.of_nat a) + 1).
  { intros a. rewrite Nat2Z.inj_succ. unfold Z.succ. rewrite inject_Z_plus. reflexivity. }
  pose proof (sorted_nth_le s Hs i1 j1 Hij1 ltac:(lia)) as Hab1.
  pose proof (sorted_nth_le s Hs i2 j2 Hij2 ltac:(lia)) as Hab2.
  rewrite E1, E2. unfold lerp.
  set (g1 := n1 * q1 - inject_Z (Z.of_nat i1)) in *.
  set (g2 := n1 * q2 - inject_Z (Z.of_nat i2)) in *.
  assert (Hj1b : inject_Z (Z.of_nat j1) <= inject_Z (Z.of_nat i1) + 1).
  { rewrite <- HS, <- Zle_Qle. lia. }
  assert (Hj2b : inject_Z (Z.of_nat j2) <= inject_Z (Z.of_nat i2) + 1).
  { rewrite <- HS, <- Zle_Qle. lia. }
  assert (Hg1 : 0 <= g1 /\ g1 <= 1) by (subst g1; split; lra).
  assert (Hg2 : 0 <= g2 /\ g2 <= 1) by (subst g2; split; lra).
  assert (Hm1 : (nth j1 s 0 - nth i1 s 0) * g1 <= (nth j1 s 0 - nth i1 s 0) * 1).
  { rewrite !(Qmult_comm (nth j1 s 0 - nth i1 s 0)). apply Qmult_le_compat_r; lra. }
  assert (Hm2 : 0 <= (nth j2 s 0 - nth i2 s 0) * g2) by (apply Qmult_le_0_compat; lra).
  destruct (le_lt_dec j1 i2) as [Hle | Hlt].
  - pose proof (sorted_nth_le s Hs j1 i2 Hle ltac:(lia)). lra.
  - destruct (decide (i1 = i2)) as [Heq | Hne12].
    + assert (Hj1' : j1 = S i1) by lia.
      subst i2 j1. destruct (decide (j2 = i1)) as [-> | Hj2'].
      * assert (Hz : g1 == 0) by (subst g1; lra).
        rewrite Hz. lra.
      * assert (j2 = S i1) by lia. subst j2.
        assert (Hm : (nth (S i1) s 0 - nth i1 s 0) * g1
                     <= (nth (S i1) s 0 - nth i1 s 0) * g2).
        { rewrite !(Qmult_comm (nth (S i1) s 0 - nth i1 s 0)).
          apply Qmult_le_compat_r; [subst g1 g2; lra | lra]. }
        lra.
    + assert (i1 = S i2) by lia. assert (j2 = i1) by lia. subst i1 j2.
      assert (Hz1 : g1 == 0).
      { subst g1. rewrite HS in *. lra. }
      assert (Hz2 : g2 == 1).
      { subst g2. rewrite HS in *. lra. }
      rewrite Hz1, Hz2. lra.
Qed.

End QuantileFacts.

Section RangeExtras.

Local Open Scope Q_scope.
Import Range.

Lemma dropna_In (v : Q) (series : list (option Q)) :
  In v (dropna series) <-> In (Some v) series.
Proof.
  unfold dropna. rewrite <- !list_elem_of_In, list_elem_of_omap. split.
  - intros ([x |] & Hx & Hf); simpl in Hf; [| discriminate].
    injection Hf as ->. exact Hx.
  - intros H. exists (Some v). split; [exact H | reflexivity].
Qed.

Lemma dropna_nonempty (series : list (option Q)) :
  (exists v, In (Some v) series) -> dropna series <> [] /\ (length (dropna series) =? 0)%nat = false.
Proof.
  intros [v Hv]. apply dropna_In in Hv.
  destruct (dropna series); [inversion Hv |]. split; [discriminate | reflexivity].
Qed.

(** The clamp of the rate branch keeps the two ends in order, whatever
    the float sum is rounded to: the upper end is at least the upper
    quantile, and at least 1 when the lower end was lifted to 0. *)
Lemma rate_clamp_ordered (lo hi : Q) :
  lo <= hi ->
  py_max 0 lo <= py_max (Binary64.add (py_max 0 lo) 1) hi.
Proof.
  intros Hle.
  assert (Hv : py_max 0 lo = lo \/ py_max 0 lo = 0).
  { unfold py_max. destruct (Qlt_bool 0 lo); [left | right]; reflexivity. }
  destruct Hv as [-> | ->].
  - pose proof (py_max_r (Binary64.add lo 1) hi). lra.
  - pose proof (py_max_l (Binary64.add 0 1) hi) as Hl.
    assert (E : 1 <= Binary64.add 0 1) by (vm_compute; discriminate).
    lra.
Qed.

Lemma robust_range_rate_ordered (series : list (option Q)) :
  (robust_range series true).1 <= (robust_range series true).2.
Proof.
  unfold robust_range.
  destruct (length (dropna series) =? 0)%nat eqn:E; [simpl; lra |].
  assert (Hne : dropna series <> []).
  { intros H. rewrite H in E. discriminate. }
  cbn [fst snd]. apply rate_clamp_ordered.
  apply (nanquantile_mono (dropna series) (3 # 1000) (997 # 1000) Hne); lra.
Qed.


Lemma money_range_bounds (series : list (option Q)) (lo hi : Q) :
  (exists v, In (Some v) series) ->
  (forall v, In (Some v) series -> lo <= v /\ v <= hi) ->
  lo <= (robust_range series false).1 /\
  (robust_range series false).1 <= (robust_range series false).2 /\
  (robust_range series false).2 <= hi.
Proof.
  intros Hex Hb. unfold robust_range.
  destruct (dropna_nonempty series Hex) as [Hne ->]. simpl.
  assert (Hnth : forall k, (k < length (dropna series))%nat ->
            lo <= nth k (sort (dropna series)) 0 /\ nth k (sort (dropna series)) 0 <= hi).
  { intros k Hk. apply Hb, dropna_In, sort_In, nth_In. rewrite sort_length. exact Hk. }
  destruct (nanquantile_between (dropna series) (3 # 1000) Hne ltac:(split; lra))
    as (i & j & Hij & Hj & Hlo & _).
  destruct (nanquantile_between (dropna series) (997 # 1000) Hne ltac:(split; lra))
    as (i' & j' & Hij' & Hj' & _ & Hhi).
  destruct (Hnth i ltac:(lia)) as [H1 _]. destruct (Hnth j' Hj') as [_ H2].
  pose proof (nanquantile_mono (dropna series) (3 # 1000) (997 # 1000) Hne
                ltac:(lra) ltac:(lra) ltac:(lra)).
  repeat split; lra.
Qed.



End RangeExtras.

(** ** The labels of the three legends *)

Section LegendLabels.

Local Open Scope Q_scope.
Import Scene Legend.



End LegendLabels.

Section ColorExtras.

Local Open Scope Q_scope.
Import Palette Scene.

(** At or below the domain the colour is the one of the first stop. *)
Lemma call_saturates_low (vmin vmax x : Q) :
  x <= vmin -> call (scale vmin vmax) x = Some "#a50026ff"%string.
Proof.
  intros Hlo. unfold call, rgba_hex_str, rgba_bytes_tuple, rgba_floats_tuple.
  rewrite scale_index. cbn [nth List.last].
  destruct (Qle_bool x _) eqn:E0.
  - vm_compute. reflexivity.
  - assert (H : x <= vmin + (vmax - vmin) * (0 # 10)) by lra.
    apply Qle_bool_iff in H. congruence.
Qed.

(** X3. A money metric whose observations are all equal to [c] gets the
    zero-width domain [c, c]: it is not widened as a rate domain is.  On
    that domain every value up to [c], so every observation, is given the
    colour of the first stop, and every larger value the colour of the last
    stop. *)
Theorem constant_money_series (series : list (option Q)) (c : Q) :
  (exists v, In (Some v) series) ->
  (forall v, In (Some v) series -> v == c) ->
  (Range.robust_range series false).1 == c /\
  (Range.robust_range series false).2 == c /\
  (forall x : Q, x <= c ->
     call (scale (Range.robust_range series false).1
                 (Range.robust_range series false).2) x
     = Some "#a50026ff"%string) /\
  (forall x : Q, c < x ->
     call (scale (Range.robust_range series false).1
                 (Range.robust_range series false).2) x
     = Some "#006837ff"%string).
Proof.
  intros Hex Hc.
  destruct (money_range_bounds series c c Hex) as (H1 & Hord & H2).
  { intros v Hv. specialize (Hc v Hv). split; lra. }
  assert (E1 : (Range.robust_range series false).1 == c) by lra.
  assert (E2 : (Range.robust_range series false).2 == c) by lra.
  split; [exact E1 |]. split; [exact E2 |]. split.
  - intros x Hx. apply call_saturates_low. lra.
  - intros x Hx. apply call_saturates_high; lra.
Qed.

Lemma constant_money_series_witness :
  (Range.robust_range [Some 4; None; Some 4] false).1 == 4 /\
  (Range.robust_range [Some 4; None; Some 4] false).2 == 4 /\
  (forall x : Q, x <= 4 ->
     call (scale (Range.robust_range [Some 4; None; Some 4] false).1
                 (Range.robust_range [Some 4; None; Some 4] false).2) x
     = Some "#a50026ff"%string) /\
  (forall x : Q, 4 < x ->
     call (scale (Range.robust_range [Some 4; None; Some 4] false).1
                 (Range.robust_range [Some 4; None; Some 4] false).2) x
     = Some "#006837ff"%string).
Proof.
  apply (constant_money_series [Some 4; None; Some 4] 4).
  - exists 4. left. reflexivity.
  - intros v [H | [H | [H | []]]]; inversion H; reflexivity.
Defined.

(** X4. Outside a metric's domain [color_for] saturates: a value at or
    below the lower end gets the colour of the first stop, and a value
    above the lower end and at or above the upper end gets the colour of
    the last stop. *)
Theorem color_for_clamped (gdfs : Z -> list Row) (m : Metric) (x : Q) :
  x <= (ranges gdfs m).1 \/ (ranges gdfs m).2 <= x ->
  color_for gdfs m (Some x)
  = Some (if Qle_bool x (ranges gdfs m).1 then "#a50026ff" else "#006837ff")%string.
Proof.
  intros H. unfold color_for, PALETTES.
  destruct (Qle_bool x (ranges gdfs m).1) eqn:E.
  - apply Qle_bool_iff in E. apply call_saturates_low. exact E.
  - assert (Hlt : (ranges gdfs m).1 < x).
    { destruct (Qlt_le_dec (ranges gdfs m).1 x) as [Hl | Hl]; [exact Hl |].
      apply Qle_bool_iff in Hl. congruence. }
    destruct H as [H | H]; [lra |].
    apply call_saturates_high; assumption.
Qed.

Lemma color_for_clamped_witness :
  color_for demo_gdfs avg_tip (Some 100) = Some "#006837ff"%string /\
  color_for demo_gdfs avg_tip (Some 1) = Some "#a50026ff"%string.
Proof.
  split.
  - apply (color_for_clamped demo_gdfs avg_tip 100). right. vm_compute. discriminate.
  - apply (color_for_clamped demo_gdfs avg_tip 1). left. vm_compute. discriminate.
Defined.

End ColorExtras.

Section LegendExtras.

Local Open Scope Q_scope.
Import Legend.



Lemma tick_values_lookup (vmin vmax : Q) (n i : nat) (mode : bool) :
  tick_values vmin vmax n mode !! i = rounded_end mode <$> linspace vmin vmax n !! i.
Proof.
  unfold tick_values, money_ticks, rate_ticks, rounded_end.
  destruct mode; rewrite map_map;
    match goal with |- context [map ?f ?l] => change (map f l) with (f <$> l) end;
    rewrite list_lookup_fmap; reflexivity.
Qed.

Lemma tick_labels_lookup (vmin vmax : Q) (n i : nat) (mode : bool) :
  tick_labels vmin vmax n mode !! i = end_label mode <$> linspace vmin vmax n !! i.
Proof.
  unfold tick_labels, money_ticks, rate_ticks, end_label.
  destruct mode; rewrite map_map;
    match goal with |- context [map ?f ?l] => change (map f l) with (f <$> l) end;
    rewrite list_lookup_fmap; reflexivity.
Qed.




(** X6. The legend of a rate metric shows no negative tick while its
    domain stays within the int64 range: when the upper end of the domain
    that [robust_range] returns for a rate metric is at most the largest
    int64, every tick is a non-negative integer and every label is a plain
    string of digits, for any number of ticks. *)
Theorem rate_legend_nonnegative (series : list (option Q)) (n_ticks : nat) :
  (Range.robust_range series true).2 <= inject_Z INT64_MAX ->
  Forall (fun t => 0 <= t)%Z
    (rate_ticks (linspace (Range.robust_range series true).1
                          (Range.robust_range series true).2 n_ticks)) /\
  Forall (fun lbl => all_digits lbl = true)
    (tick_labels (Range.robust_range series true).1
                 (Range.robust_range series true).2 n_ticks false).
Proof.
  intros Hmax.
  destruct (robust_range_rate_ends series) as [H0 _].
  pose proof (robust_range_rate_ordered series) as H1.
  set (vmin := (Range.robust_range series true).1) in *.
  set (vmax := (Range.robust_range series true).2) in *.
  assert (Ht : forall i raw, linspace vmin vmax n_ticks !! i = Some raw ->
            (0 <= astype_int (np_round raw))%Z).
  { intros i raw Hraw.
    pose proof (linspace_lower vmin vmax n_ticks i raw H1 Hraw) as Hl.
    pose proof (linspace_upper vmin vmax n_ticks i raw H1 Hraw) as Hu.
    assert (Hr0 : (0 <= round_half_even raw)%Z)
      by (apply round_half_even_sign; lra).
    assert (Hr1 : (round_half_even raw <= INT64_MAX)%Z).
    { rewrite <- (round_half_even_inject_Z INT64_MAX).
      apply round_half_even_mono. lra. }
    rewrite astype_int_np_round; [exact Hr0 |].
    split; [| exact Hr1]. unfold INT64_MIN. lia. }
  unfold tick_labels, rate_ticks. split.
  - apply Forall_lookup. intros i t Hi.
    change (map ?f ?l) with (f <$> l) in Hi. rewrite list_lookup_fmap in Hi.
    destruct (linspace vmin vmax n_ticks !! i) as [raw |] eqn:E; [| discriminate].
    injection Hi as <-. exact (Ht i raw E).
  - rewrite map_map. apply Forall_lookup. intros i lbl Hi.
    change (map ?f ?l) with (f <$> l) in Hi. rewrite list_lookup_fmap in Hi.
    destruct (linspace vmin vmax n_ticks !! i) as [raw |] eqn:E; [| discriminate].
    injection Hi as <-. specialize (Ht i raw E).
    unfold format_d. rewrite (proj2 (Z.ltb_ge _ _) Ht).
    apply digits_spec. exact Ht.
Qed.

Lemma rate_legend_nonnegative_witness :
  (Range.robust_range [Some 12; None; Some 18; Some 25] true).2 <= inject_Z INT64_MAX /\
  Forall (fun t => 0 <= t)%Z
    (rate_ticks (linspace (Range.robust_range [Some 12; None; Some 18; Some 25] true).1
                          (Range.robust_range [Some 12; None; Some 18; Some 25] true).2 7)) /\
  Forall (fun lbl => all_digits lbl = true)
    (tick_labels (Range.robust_range [Some 12; None; Some 18; Some 25] true).1
                 (Range.robust_range [Some 12; None; Some 18; Some 25] true).2 7 false).
Proof.
  split; [vm_compute; discriminate |].
  apply (rate_legend_nonnegative [Some 12; None; Some 18; Some 25] 7).
  vm_compute. discriminate.
Defined.

Lemma floor_unique (x : Q) (k : Z) :
  inject_Z k <= x -> x < inject_Z k + 1 -> Qfloor x = k.
Proof.
  intros H1 H2. destruct (floor_spec x) as [F1 F2].
  assert (A : inject_Z (Qfloor x) < inject_Z (k + 1)).
  { rewrite inject_Z_plus. change (inject_Z 1) with 1. lra. }
  assert (B : inject_Z k < inject_Z (Qfloor x + 1)).
  { rewrite inject_Z_plus. change (inject_Z 1) with 1. lra. }
  rewrite <- Zlt_Qlt in A, B. lia.
Qed.

(** X7. A money tick that falls in [-0.25, 0) is rounded to a zero with a
    minus sign, and its label is "-0.00". *)
Theorem money_label_negative_zero (vmin vmax : Q) (n_ticks i : nat) (raw : Q) :
  linspace vmin vmax n_ticks !! i = Some raw ->
  - (1 # 4) <= raw -> raw < 0 ->
  tick_labels vmin vmax n_ticks true !! i = Some "-0.00"%string /\
  exists t : Q, tick_values vmin vmax n_ticks true !! i = Some t /\ t == 0.
Proof.
  intros Hraw Hlo Hhi.
  rewrite tick_labels_lookup, tick_values_lookup, Hraw. simpl.
  assert (Hf : Qfloor (raw * 2) = (-1)%Z).
  { apply floor_unique; change (inject_Z (-1)) with (-1); lra. }
  assert (Hr : round_half_even (raw * 2) = 0%Z).
  { unfold round_half_even. rewrite Hf. change (inject_Z (-1)) with (-1).
    destruct (Qlt_bool (raw * 2 - -1) (1 # 2)) eqn:E1.
    { apply Qlt_bool_true in E1. exfalso. lra. }
    destruct (Qlt_bool (1 # 2) (raw * 2 - -1)); reflexivity. }
  assert (Hn : np_round (raw * 2) = Rounded true 0).
  { unfold np_round. rewrite Hr.
    assert (E : Qlt_bool (raw * 2) 0 = true) by (apply Qlt_bool_true; lra).
    rewrite E. reflexivity. }
  rewrite Hn. split; [reflexivity |].
  eexists. split; [reflexivity |]. reflexivity.
Qed.

Lemma money_label_negative_zero_witness :
  tick_labels (- (2 # 10)) (1 # 10) 2 true !! 0%nat = Some "-0.00"%string /\
  exists t : Q, tick_values (- (2 # 10)) (1 # 10) 2 true !! 0%nat = Some t /\ t == 0.
Proof.
  apply (money_label_negative_zero (- (2 # 10)) (1 # 10) 2 0
           (inject_Z (Z.of_nat 0) * ((1 # 10) - - (2 # 10)) / inject_Z (Z.of_nat (2 - 1)) + - (2 # 10))).
  - reflexivity.
  - vm_compute. discriminate.
  - vm_compute. reflexivity.
Defined.

End LegendExtras.

Section SeparatorFacts.

Local Close Scope Q_scope.

Lemma group3_strip (k : nat) :
  forall r : list ascii,
    length r <= k -> Forall (fun c => not_comma c = true) r ->
    List.filter not_comma (group3 r) = r /\
    forall i : nat, i < length (group3 r) ->
      (nth i (group3 r) "0"%char = ","%char <-> i mod 4 = 3).
Proof.
  induction k as [| k IH]; intros r Hlen Hr.
  { destruct r; [| simpl in Hlen; lia]. split; [reflexivity |]. simpl. intros; lia. }
  assert (Hkeep : List.filter not_comma r = r).
  { clear -Hr. induction Hr as [| c r Hc _ IHr]; simpl; [reflexivity |].
    rewrite Hc, IHr. reflexivity. }
  assert (Hchar : forall i, i < length r -> nth i r "0"%char <> ","%char).
  { intros i Hi Heq. rewrite Forall_forall in Hr.
    assert (Hin : nth i r "0"%char ∈ r) by (apply list_elem_of_In, nth_In; exact Hi).
    specialize (Hr _ Hin). rewrite Heq in Hr. discriminate. }
  destruct r as [| a [| b [| c [| d rest]]]];
    try (split; [exact Hkeep |]; intros i Hi; simpl in Hi;
         split; [ intros Heq; exfalso; exact (Hchar i Hi Heq)
                | intros Hm; exfalso;
                  destruct i as [| [| [| i]]]; simpl in Hm; lia ]).
  apply Forall_cons in Hr as [Ha Hr]. apply Forall_cons in Hr as [Hb Hr].
  apply Forall_cons in Hr as [Hc Hr].
  destruct (IH (d :: rest) ltac:(simpl in *; lia) Hr) as [IH1 IH2].
  change (group3 (a :: b :: c :: d :: rest))
    with (a :: b :: c :: ","%char :: group3 (d :: rest)).
  split.
  - cbn [List.filter]. rewrite Ha, Hb, Hc.
    change (not_comma ",") with false. cbv iota. rewrite IH1. reflexivity.
  - intros i Hi. cbn [length] in Hi.
    destruct i as [| [| [| [| i]]]]; cbn [nth].
    + split; [intros ->; discriminate | intros Hm; exfalso; simpl in Hm; lia].
    + split; [intros ->; discriminate | intros Hm; exfalso; simpl in Hm; lia].
    + split; [intros ->; discriminate | intros Hm; exfalso; simpl in Hm; lia].
    + split; [intros _; reflexivity | reflexivity].
    + rewrite (IH2 i ltac:(lia)).
      replace (S (S (S (S i)))) with (i + 1 * 4) by lia.
      rewrite Nat.Div0.mod_add. reflexivity.
Qed.

Lemma all_digits_not_comma (s : string) :
  all_digits s = true -> Forall (fun c => not_comma c = true) (list_ascii_of_string s).
Proof.
  unfold all_digits. rewrite forallb_forall, Forall_forall.
  intros H c Hc. apply list_elem_of_In in Hc. specialize (H c Hc).
  unfold is_digit in H. apply existsb_exists in H as (d & Hd & Heq).
  apply Ascii.eqb_eq in Heq. subst d.
  simpl in Hd. repeat (destruct Hd as [<- | Hd]; [reflexivity |]). destruct Hd.
Qed.

(** X8. The trip counts of the tooltips keep their digits and group them in
    threes: with the commas taken out, the text of a non-negative count
    reads back as the count, and counted from the right a comma stands at
    exactly every fourth place.  A negative count is the minus sign
    followed by the text of its absolute value. *)
Theorem format_commas_groups (n : Z) :
  (0 <= n)%Z ->
  digits_value (strip_commas (format_commas n)) = n /\
  (forall i : nat,
     i < String.length (format_commas n) ->
     (nth i (rev (list_ascii_of_string (format_commas n))) "0"%char = ","%char
      <-> i mod 4 = 3)) /\
  ((0 < n)%Z -> format_commas (- n) = ("-" ++ format_commas n)%string).
Proof.
  intros Hn.
  destruct (digits_spec n Hn) as (Hne & Hall & Hval & _).
  assert (Hf : format_commas n
          = string_of_list_ascii (rev (group3 (rev (list_ascii_of_string (digits 10 n)))))).
  { unfold format_commas. rewrite Z.abs_eq by lia.
    rewrite (proj2 (Z.ltb_ge n 0) Hn). reflexivity. }
  set (ds := list_ascii_of_string (digits 10 n)) in *.
  assert (Hds : Forall (fun c => not_comma c = true) (rev ds)).
  { apply Forall_rev. apply all_digits_not_comma. exact Hall. }
  destruct (group3_strip (length (rev ds)) (rev ds) ltac:(lia) Hds) as [G1 G2].
  split; [| split].
  - unfold strip_commas. rewrite Hf, list_ascii_of_string_of_list_ascii.
    rewrite List.filter_rev, G1, rev_involutive. subst ds.
    rewrite string_of_list_ascii_of_string. exact Hval.
  - intros i Hi. rewrite Hf in *. rewrite list_ascii_of_string_of_list_ascii.
    rewrite rev_involutive. apply G2.
    rewrite <- (length_rev (group3 (rev ds))).
    rewrite <- (list_ascii_of_string_of_list_ascii (rev (group3 (rev ds)))).
    clear -Hi. revert Hi.
    generalize (string_of_list_ascii (rev (group3 (rev ds)))). intros s.
    assert (E : String.length s = length (list_ascii_of_string s)).
    { induction s as [| c s IHs]; simpl; [reflexivity | now rewrite IHs]. }
    rewrite E. tauto.
  - intros Hpos. unfold format_commas.
    rewrite Z.abs_opp, (proj2 (Z.ltb_lt (- n) 0)) by lia.
    rewrite (proj2 (Z.ltb_ge n 0) Hn). reflexivity.
Qed.

Lemma format_commas_groups_witness :
  digits_value (strip_commas (format_commas 1234567)) = 1234567%Z /\
  (forall i : nat,
     i < String.length (format_commas 1234567) ->
     (nth i (rev (list_ascii_of_string (format_commas 1234567))) "0"%char = ","%char
      <-> i mod 4 = 3)) /\
  ((0 < 1234567)%Z -> format_commas (- 1234567) = ("-" ++ format_commas 1234567)%string).
Proof. apply (format_commas_groups 1234567). lia. Defined.

End SeparatorFacts.

(** ** The page across transitions *)

Section PageExtras.

Local Close Scope Q_scope.
Import Scene Controller Artifact.

Lemma drawn_bind_highlight (k : Layer) : drawn (bind_highlight k) = drawn k.
Proof. destruct k as [[props |] c ls [|] | f s kids ls [|]]; reflexivity. Qed.

Lemma drawn_attachHighlightHandlers (l : Layer) :
  drawn (attachHighlightHandlers l) = drawn l.
Proof.
  destruct l as [f c ls b | f s kids ls b]; simpl; [reflexivity |].
  rewrite flat_map_concat_map, map_map, <- flat_map_concat_map.
  apply flat_map_ext_Forall, Forall_forall. intros k _. apply drawn_bind_highlight.
Qed.

Lemma drawn_paint (cp : string) (l : Layer) :
  forall (p : option string) (props : gmap string string) (c : string),
    (props, c) ∈ drawn (paint cp p l) -> props !! "cur_color" = Some c.
Proof.
  induction l as [f c0 ls b | f s kids ls b IH] using Layer_forall_ind;
    intros p props c Hin.
  - destruct f as [props0 |]; simpl in Hin; [| inversion Hin].
    apply list_elem_of_singleton in Hin. injection Hin as -> ->.
    apply lookup_insert_eq.
  - assert (Hk : forall q, (props, c) ∈ flat_map drawn (map (paint cp q) kids) ->
                           props !! "cur_color" = Some c).
    { intros q H. apply list_elem_of_In, in_flat_map in H as (k' & Hk' & Hin').
      apply in_map_iff in Hk' as (k & <- & Hk).
      rewrite Forall_forall in IH.
      apply (IH k ltac:(apply list_elem_of_In; exact Hk) q).
      apply list_elem_of_In. exact Hin'. }
    destruct f as [props0 |]; simpl in Hin; eapply Hk; exact Hin.
Qed.

Lemma layers_paint_ok (cp : string) (p : option string) (l : Layer) :
  Forall handlers_ok (layers l) -> Forall handlers_ok (layers (paint cp p l)).
Proof.
  assert (Hk : forall q k, handlers_ok k -> handlers_ok (paint cp q k)).
  { intros q k Hok.
    destruct k as [[props |] c ls b | [props |] s kids ls b]; exact Hok. }
  intros H.
  destruct l as [[props |] c ls b | [props |] s kids ls b]; simpl in *;
    try constructor; apply Forall_map; (eapply Forall_impl; [exact H |]);
    intros k Hok; apply Hk; exact Hok.
Qed.

Lemma bind_highlight_ok (k : Layer) : handlers_ok k -> handlers_ok (bind_highlight k).
Proof.
  intros [[Hb Hl] | [Hb Hl]]; unfold bind_highlight; rewrite Hb.
  - right. destruct k as [f c ls b | f s kids ls b]; simpl in *; subst; split; reflexivity.
  - right. split; assumption.
Qed.

Lemma layers_attach_ok (l : Layer) :
  Forall handlers_ok (layers l) -> Forall handlers_ok (layers (attachHighlightHandlers l)).
Proof.
  intros H. destruct l as [f c ls b | f s kids ls b]; simpl in *; [constructor |].
  apply Forall_map. eapply Forall_impl; [exact H |]. intros k. apply bind_highlight_ok.
Qed.

Lemma show_every_layer (P : Layer -> Prop) LEGEND Y2V (m : Metric) (y : string) (pg : Page) :
  (forall lyr, P lyr -> P (attachHighlightHandlers (recolorLayerByMetric lyr m))) ->
  every_layer P pg -> every_layer P (showYearAndMetric LEGEND Y2V m y pg).
Proof.
  intros Hstep Hall.
  destruct (Y2V !! y ≫= layerFromVar pg) as [lyr |] eqn:E.
  - destruct (Y2V !! y) as [v |] eqn:Hy; [| discriminate].
    simpl in E. unfold layerFromVar in E.
    rewrite (show_found LEGEND Y2V m y v lyr pg Hy E).
    intros v' lyr' Hv'. simpl in Hv'.
    destruct (decide (v = v')) as [<- | Hne].
    + rewrite lookup_insert_eq in Hv'. injection Hv' as <-.
      apply Hstep. exact (Hall v lyr E).
    + rewrite lookup_insert_ne in Hv' by exact Hne. exact (Hall v' lyr' Hv').
  - rewrite (show_missing LEGEND Y2V m y pg E).
    intros v' lyr' Hv'. simpl in Hv'. rewrite hideAllYears_window in Hv'.
    exact (Hall v' lyr' Hv').
Qed.

Lemma run_every_layer (P : Layer -> Prop) (a : artifact) (shown : gset string)
    (sels : list (Metric * string)) :
  (forall lyr m, P lyr -> P (attachHighlightHandlers (recolorLayerByMetric lyr m))) ->
  every_layer P (loaded a shown) -> every_layer P (run a shown sels).
Proof.
  intros Hstep H0. induction sels as [| sel sels IH] using rev_ind.
  - apply show_every_layer; [intros lyr; apply Hstep | exact H0].
  - rewrite run_snoc. apply show_every_layer; [intros lyr; apply Hstep | exact IH].
Qed.

End PageExtras.

Section BuildExtras.

Local Close Scope Q_scope.
Import Scene Controller Artifact.

Variable gdfs : Z -> list Row.
Variable get_name : Z -> string.

Lemma feature_properties_inv (r : Row) (props : gmap string string) :
  feature_properties gdfs r = Some props ->
  props !! "cur_color" = props !! "color_avg_tip" /\
  props !! "cur_color" = Some (style_fn props) /\
  props !! "tooltip_html" = Some (row_tooltip_html r) /\
  dom props = property_names.
Proof.
  unfold feature_properties. intros H.
  destruct (color_for gdfs avg_tip (row_avg_tip r)) as [c1 |]; [| discriminate].
  destruct (color_for gdfs med_tip (row_med_tip r)) as [c2 |]; [| discriminate].
  destruct (color_for gdfs avg_rate (row_avg_rate r)) as [c3 |]; [| discriminate].
  simpl in H. injection H as <-. unfold style_fn, property_names.
  repeat split.
Qed.

Lemma row_layer_inv (r : Row) (k : Layer) :
  row_layer gdfs r = Some k ->
  exists props : gmap string string,
    feature_properties gdfs r = Some props /\
    k = LayerGroup None true [Path (Some props) (style_fn props) [] false] [] false.
Proof.
  unfold row_layer. intros H.
  destruct (feature_properties gdfs r) as [props |]; [| discriminate].
  injection H as <-. eauto.
Qed.

Lemma year_layer_inv (y : Z) (fg : Layer) :
  year_layer gdfs y = Some fg ->
  exists kids : list Layer,
    fg = LayerGroup None true kids [] false /\
    Forall2 (fun r k => row_layer gdfs r = Some k) (gdfs y) kids.
Proof.
  unfold year_layer. intros H.
  destruct (mapM (row_layer gdfs) (gdfs y)) as [kids |] eqn:E; [| discriminate].
  injection H as <-. exists kids. split; [reflexivity |]. apply mapM_Some_1. exact E.
Qed.

Lemma build_inv (a : artifact) :
  build gdfs get_name = Some a ->
  YEAR_TO_VARNAME a = foldl (fun d y => <[format_d y := get_name y]> d) ∅ YEARS /\
  (forall m, legend_for_metric gdfs m = Some (LEGEND_BY_METRIC a m)) /\
  exists fgs : list (Z * Layer),
    Forall2 (fun y yfg => exists fg, year_layer gdfs y = Some fg /\ yfg = (y, fg)) YEARS fgs /\
    globals a = foldl (fun w yfg => <[get_name yfg.1 := yfg.2]> w) ∅ fgs.
Proof.
  unfold build. intros H.
  destruct (legend_for_metric gdfs avg_tip) as [l1 |] eqn:E1; [| discriminate].
  destruct (legend_for_metric gdfs med_tip) as [l2 |] eqn:E2; [| discriminate].
  destruct (legend_for_metric gdfs avg_rate) as [l3 |] eqn:E3; [| discriminate].
  cbn [mbind option_bind] in H.
  match type of H with
  | context [mapM ?f YEARS] => destruct (mapM f YEARS) as [fgs |] eqn:E
  end; [| discriminate].
  cbn [mbind option_bind] in H. injection H as <-. simpl.
  split; [reflexivity |]. split; [intros [| |]; assumption |].
  exists fgs. split; [| reflexivity].
  apply mapM_Some_1 in E. eapply Forall2_impl; [exact E |].
  intros y yfg Hy. simpl in Hy.
  destruct (year_layer gdfs y) as [fg |]; [| discriminate].
  injection Hy as <-. eauto.
Qed.

Lemma globals_year_layer (a : artifact) (v : string) (lyr : Layer) :
  build gdfs get_name = Some a ->
  globals a !! v = Some lyr ->
  exists y : Z, y ∈ YEARS /\ year_layer gdfs y = Some lyr.
Proof.
  intros Ha Hv. destruct (build_inv a Ha) as (_ & _ & fgs & Hf & Hg).
  rewrite Hg in Hv.
  apply globals_lookup in Hv as [Hv | (y & Hy)]; [by rewrite lookup_empty in Hv |].
  apply list_elem_of_lookup in Hy as (i & Hi).
  destruct (Forall2_lookup_r _ _ _ _ _ Hf Hi) as (y0 & Hy0 & fg & Hfg & Heq).
  injection Heq as -> ->. exists y0. split; [| exact Hfg].
  apply list_elem_of_lookup. eauto.
Qed.

Lemma foldl_insert_keeps (fgs : list (Z * Layer)) :
  forall (w : gmap string Layer) (k : string),
    is_Some (w !! k) ->
    is_Some (foldl (fun w yfg => <[get_name yfg.1 := yfg.2]> w) w fgs !! k).
Proof.
  induction fgs as [| [y fg] fgs IH]; intros w k H; simpl; [exact H |].
  apply IH. destruct (decide (get_name y = k)) as [<- | Hne].
  - rewrite lookup_insert_eq. eauto.
  - rewrite lookup_insert_ne by exact Hne. exact H.
Qed.

Lemma foldl_insert_has (fgs : list (Z * Layer)) :
  forall (w : gmap string Layer) (y : Z) (fg : Layer),
    (y, fg) ∈ fgs ->
    is_Some (foldl (fun w yfg => <[get_name yfg.1 := yfg.2]> w) w fgs !! get_name y).
Proof.
  induction fgs as [| [y0 fg0] fgs IH]; intros w y fg Hin; [inversion Hin |].
  simpl. apply elem_of_cons in Hin as [[= <- <-] | Hin].
  - apply foldl_insert_keeps. rewrite lookup_insert_eq. eauto.
  - eapply IH. exact Hin.
Qed.

Lemma globals_has_year (a : artifact) (y : Z) :
  build gdfs get_name = Some a -> y ∈ YEARS -> is_Some (globals a !! get_name y).
Proof.
  intros Ha Hy. destruct (build_inv a Ha) as (_ & _ & fgs & Hf & ->).
  apply list_elem_of_lookup in Hy as (i & Hi).
  destruct (Forall2_lookup_l _ _ _ _ _ Hf Hi) as (yfg & Hyfg & fg & _ & ->).
  apply (foldl_insert_has fgs ∅ y fg). apply list_elem_of_lookup. eauto.
Qed.

Lemma YEARS_explicit : YEARS = [2015; 2016; 2017; 2018; 2019; 2020; 2021; 2022]%Z.
Proof. reflexivity. Qed.

Lemma YEARS_range (y : Z) : y ∈ YEARS <-> (2015 <= y <= 2022)%Z.
Proof.
  rewrite YEARS_explicit, !elem_of_cons, elem_of_nil. lia.
Qed.

Lemma registry_explicit :
  foldl (fun d y => <[format_d y := get_name y]> d) (∅ : gmap string string) YEARS
  = <["2022" := get_name 2022]> (<["2021" := get_name 2021]>
    (<["2020" := get_name 2020]> (<["2019" := get_name 2019]>
    (<["2018" := get_name 2018]> (<["2017" := get_name 2017]>
    (<["2016" := get_name 2016]> (<["2015" := get_name 2015]> ∅))))))).
Proof. reflexivity. Qed.

Lemma registry_lookup (key v : string) :
  foldl (fun d y => <[format_d y := get_name y]> d) (∅ : gmap string string) YEARS !! key
    = Some v
  <-> exists y : Z, y ∈ YEARS /\ key = format_d y /\ v = get_name y.
Proof.
  rewrite registry_explicit, YEARS_explicit. split.
  - intros H.
    apply lookup_insert_Some in H as [[<- <-] | [_ H]];
      [exists 2022%Z; split; [apply YEARS_range; lia | split; reflexivity] |].
    apply lookup_insert_Some in H as [[<- <-] | [_ H]];
      [exists 2021%Z; split; [apply YEARS_range; lia | split; reflexivity] |].
    apply lookup_insert_Some in H as [[<- <-] | [_ H]];
      [exists 2020%Z; split; [apply YEARS_range; lia | split; reflexivity] |].
    apply lookup_insert_Some in H as [[<- <-] | [_ H]];
      [exists 2019%Z; split; [apply YEARS_range; lia | split; reflexivity] |].
    apply lookup_insert_Some in H as [[<- <-] | [_ H]];
      [exists 2018%Z; split; [apply YEARS_range; lia | split; reflexivity] |].
    apply lookup_insert_Some in H as [[<- <-] | [_ H]];
      [exists 2017%Z; split; [apply YEARS_range; lia | split; reflexivity] |].
    apply lookup_insert_Some in H as [[<- <-] | [_ H]];
      [exists 2016%Z; split; [apply YEARS_range; lia | split; reflexivity] |].
    apply lookup_insert_Some in H as [[<- <-] | [_ H]];
      [exists 2015%Z; split; [apply YEARS_range; lia | split; reflexivity] |].
    by rewrite lookup_empty in H.
  - intros (y & Hy & -> & ->).
    repeat (apply elem_of_cons in Hy as [-> | Hy];
            [ repeat (rewrite lookup_insert_ne by discriminate); apply lookup_insert_eq |]).
    inversion Hy.
Qed.

End BuildExtras.

Section ArtifactExtras.

Local Close Scope Q_scope.
Import Scene Controller Artifact.

Lemma year_layer_features (gdfs : Z -> list Row) (y : Z) (fg : Layer) :
  year_layer gdfs y = Some fg ->
  Forall2 (fun r props => feature_properties gdfs r = Some props) (gdfs y) (features fg) /\
  Forall2 (fun r pc => feature_properties gdfs r = Some pc.1 /\ pc.2 = style_fn pc.1)
          (gdfs y) (drawn fg) /\
  Forall (fun k => _highlightBound k = false /\ listeners k = []) (layers fg).
Proof.
  intros H. apply year_layer_inv in H as (kids & -> & Hk). simpl.
  induction Hk as [| r k rows kids Hr _ IH]; simpl; [repeat split; constructor |].
  apply row_layer_inv in Hr as (props & Hp & ->). simpl.
  destruct IH as (IH1 & IH2 & IH3).
  repeat split; constructor; try assumption; split; try reflexivity; assumption.
Qed.

(** X9. The fill colour a feature is drawn with is always its [cur_color]:
    on the page as built, and after the boot transition and any sequence of
    selections, for every feature of every year layer, shown or hidden. *)
Theorem drawn_fill_is_cur_color (gdfs : Z -> list Row) (get_name : Z -> string)
    (shown : gset string) (sels : list (Metric * string)) :
  exists a : artifact,
    build gdfs get_name = Some a /\
    every_layer (fun lyr => forall props c, (props, c) ∈ drawn lyr ->
                                            props !! "cur_color" = Some c)
                (loaded a shown) /\
    every_layer (fun lyr => forall props c, (props, c) ∈ drawn lyr ->
                                            props !! "cur_color" = Some c)
                (run a shown sels).
Proof.
  destruct (build_total gdfs get_name) as (a & Ha & _).
  exists a. split; [exact Ha |].
  assert (H0 : every_layer (fun lyr => forall props c, (props, c) ∈ drawn lyr ->
                                        props !! "cur_color" = Some c) (loaded a shown)).
  { intros v lyr Hv props c Hin. simpl in Hv.
    destruct (globals_year_layer gdfs get_name a v lyr Ha Hv) as (y & _ & Hy).
    destruct (year_layer_features gdfs y lyr Hy) as (_ & Hd & _).
    apply list_elem_of_lookup in Hin as (i & Hi).
    destruct (Forall2_lookup_r _ _ _ _ _ Hd Hi) as (r & _ & Hp & Hs).
    simpl in Hp, Hs. subst c.
    apply (feature_properties_inv gdfs r props Hp). }
  split; [exact H0 |].
  apply run_every_layer; [| exact H0].
  intros lyr m _ props c Hin.
  rewrite drawn_attachHighlightHandlers, recolorLayerByMetric_paint in Hin.
  eapply drawn_paint. exact Hin.
Qed.


(** X11. The year registry of the page has exactly one entry per year from
    2015 to 2022, keyed by the year written in decimal and holding the name
    of that year's feature group, and the page holds a layer under each of
    these names. *)
Theorem year_registry (gdfs : Z -> list Row) (get_name : Z -> string) :
  exists a : artifact,
    build gdfs get_name = Some a /\
    (forall key v : string,
        YEAR_TO_VARNAME a !! key = Some v <->
        exists y : Z, (2015 <= y <= 2022)%Z /\ key = format_d y /\ v = get_name y) /\
    (forall y : Z, (2015 <= y <= 2022)%Z -> is_Some (globals a !! get_name y)).
Proof.
  destruct (build_total gdfs get_name) as (a & Ha & _).
  exists a. split; [exact Ha |].
  pose proof YEARS_range as Hy.
  split.
  - intros key v. destruct (build_inv gdfs get_name a Ha) as (-> & _).
    rewrite registry_lookup. split; intros (y & H1 & H2); exists y;
      (split; [apply Hy; exact H1 | exact H2]).
  - intros y H. apply (globals_has_year gdfs get_name a y Ha). apply Hy. exact H.
Qed.

Lemma enter_registered_year (gdfs : Z -> list Row) (get_name : Z -> string)
    (a : artifact) (sel : Metric * string) (pg : Page) :
  build gdfs get_name = Some a ->
  (exists y : Z, y ∈ YEARS /\ sel.2 = format_d y) ->
  (forall y : Z, y ∈ YEARS -> is_Some (window pg !! get_name y)) ->
  console pg = [] ->
  (forall y : Z, y ∈ YEARS -> is_Some (window (enter a sel pg) !! get_name y)) /\
  console (enter a sel pg) = [] /\
  legend (enter a sel pg) = Some (LEGEND_BY_METRIC a sel.1) /\
  exists v : string,
    YEAR_TO_VARNAME a !! sel.2 = Some v /\ v ∈ map_layers (enter a sel pg).
Proof.
  intros Ha (y & Hy & Hsel) Hdom Hcon.
  assert (Hreg : YEAR_TO_VARNAME a !! sel.2 = Some (get_name y)).
  { destruct (build_inv gdfs get_name a Ha) as (-> & _).
    apply registry_lookup. exists y. repeat split; assumption. }
  destruct (Hdom y Hy) as [lyr Hlyr].
  unfold enter. rewrite (show_found _ _ sel.1 sel.2 (get_name y) lyr pg Hreg Hlyr).
  simpl. split; [| split; [exact Hcon | split; [reflexivity |]]].
  - intros y' Hy'. destruct (decide (get_name y = get_name y')) as [<- | Hne].
    + rewrite lookup_insert_eq. eauto.
    + rewrite lookup_insert_ne by exact Hne. apply Hdom. exact Hy'.
  - exists (get_name y). split; [exact Hreg |].
    apply elem_of_union. right. apply elem_of_singleton. reflexivity.
Qed.

(** X12. Selections made with the radio buttons never reach the error
    branch.  When every selected year is one of 2015 to 2022, then after
    the boot transition and the selections the console is empty, the legend
    is the one of the metric selected last, and the layer registered for
    the year selected last is on the map. *)
Theorem radio_selections_never_fail (gdfs : Z -> list Row) (get_name : Z -> string)
    (shown : gset string) (sels : list (Metric * string)) :
  Forall (fun sel => exists y : Z, y ∈ YEARS /\ sel.2 = format_d y) sels ->
  exists a : artifact,
    build gdfs get_name = Some a /\
    console (run a shown sels) = [] /\
    legend (run a shown sels) = Some (LEGEND_BY_METRIC a (active_metric sels)) /\
    exists v : string,
      YEAR_TO_VARNAME a !! active_year sels = Some v /\
      v ∈ map_layers (run a shown sels).
Proof.
  intros Hsels.
  destruct (build_total gdfs get_name) as (a & Ha & _).
  exists a. split; [exact Ha |].
  assert (Hboot : exists y : Z, y ∈ YEARS /\ (init_metric, init_year).2 = format_d y).
  { exists default_year. split; [| reflexivity]. apply YEARS_range. vm_compute.
    split; discriminate. }
  assert (H0 : (forall y : Z, y ∈ YEARS -> is_Some (window (loaded a shown) !! get_name y)) /\
               console (loaded a shown) = []).
  { split; [| reflexivity]. intros y Hy. simpl.
    apply (globals_has_year gdfs get_name a y Ha Hy). }
  assert (Hinv : (forall y : Z, y ∈ YEARS -> is_Some (window (run a shown sels) !! get_name y)) /\
                 console (run a shown sels) = [] /\
                 legend (run a shown sels) = Some (LEGEND_BY_METRIC a (active_metric sels)) /\
                 exists v : string,
                   YEAR_TO_VARNAME a !! active_year sels = Some v /\
                   v ∈ map_layers (run a shown sels)).
  { induction sels as [| sel sels IH] using rev_ind.
    - destruct H0 as [Hd Hc].
      exact (enter_registered_year gdfs get_name a _ _ Ha Hboot Hd Hc).
    - apply Forall_app in Hsels as [Hsels Hsel].
      apply Forall_cons in Hsel as [Hsel _].
      destruct (IH Hsels) as (Hd & Hc & _).
      rewrite run_snoc. unfold active_metric, active_year. rewrite !last_last.
      exact (enter_registered_year gdfs get_name a sel _ Ha Hsel Hd Hc). }
  destruct Hinv as (_ & H). exact H.
Qed.

Lemma radio_selections_never_fail_witness :
  exists a : artifact,
    build demo_gdfs demo_name = Some a /\
    console (run a ∅ [(med_tip, "2018"); (avg_rate, "2016")]) = [] /\
    legend (run a ∅ [(med_tip, "2018"); (avg_rate, "2016")])
      = Some (LEGEND_BY_METRIC a (active_metric [(med_tip, "2018"); (avg_rate, "2016")])) /\
    exists v : string,
      YEAR_TO_VARNAME a !! active_year [(med_tip, "2018"); (avg_rate, "2016")] = Some v /\
      v ∈ map_layers (run a ∅ [(med_tip, "2018"); (avg_rate, "2016")]).
Proof.
  apply (radio_selections_never_fail demo_gdfs demo_name ∅
           [(med_tip, "2018"); (avg_rate, "2016")]).
  repeat constructor.
  - exists 2018%Z. split; [apply YEARS_range; lia | reflexivity].
  - exists 2016%Z. split; [apply YEARS_range; lia | reflexivity].
Defined.

(** X13. No feature layer ever gets a hover handler twice.  After the boot
    transition and any sequence of selections, every child of every year
    layer either has no handler and is not marked as bound, or is marked
    and has exactly one mouseover and one mouseout handler. *)
Theorem hover_handlers_bound_once (gdfs : Z -> list Row) (get_name : Z -> string)
    (shown : gset string) (sels : list (Metric * string)) :
  exists a : artifact,
    build gdfs get_name = Some a /\
    every_layer (fun lyr => Forall handlers_ok (layers lyr)) (run a shown sels).
Proof.
  destruct (build_total gdfs get_name) as (a & Ha & _).
  exists a. split; [exact Ha |].
  apply run_every_layer.
  - intros lyr m H. rewrite recolorLayerByMetric_paint.
    apply layers_attach_ok, layers_paint_ok. exact H.
  - intros v lyr Hv. simpl in Hv.
    destruct (globals_year_layer gdfs get_name a v lyr Ha Hv) as (y & _ & Hy).
    destruct (year_layer_features gdfs y lyr Hy) as (_ & _ & Hk).
    eapply Forall_impl; [exact Hk |]. intros k Hok. left. exact Hok.
Qed.

End ArtifactExtras.

(** ** ClientController: one transition, on any page *)

Section TransitionExtras.

Local Close Scope Q_scope.
Import Controller.

Variable LEGEND_BY_METRIC : Metric -> Legend.legend_html.
Variable YEAR_TO_VARNAME : gmap string string.

Abbreviation show := (Controller.showYearAndMetric LEGEND_BY_METRIC YEAR_TO_VARNAME).
Abbreviation is_year_var := (Controller.year_var YEAR_TO_VARNAME).

Lemma show_map_layers (m : Metric) (y : string) (pg : Page) (v : string) :
  v ∈ map_layers (show m y pg) <->
  (v ∈ map_layers pg /\ ~ is_year_var pg v) \/
  (YEAR_TO_VARNAME !! y = Some v /\ is_Some (window pg !! v)).
Proof.
  destruct (YEAR_TO_VARNAME !! y ≫= layerFromVar pg) as [lyr |] eqn:E.
  - destruct (YEAR_TO_VARNAME !! y) as [v0 |] eqn:Hy; [| discriminate].
    simpl in E. unfold layerFromVar in E.
    rewrite (show_found _ _ m y v0 lyr pg Hy E). simpl.
    rewrite elem_of_union, elem_of_singleton, hideAllYears_map_layers. split.
    + intros [H | ->]; [left; exact H | right]. split; [reflexivity | rewrite E; eauto].
    + intros [H | [[= ->] _]]; [left; exact H | right; reflexivity].
  - rewrite (show_missing _ _ m y pg E). simpl. rewrite hideAllYears_map_layers. split.
    + intros H. left. exact H.
    + intros [H | [Hy [lyr Hl]]]; [exact H |].
      rewrite Hy in E. simpl in E. unfold layerFromVar in E. congruence.
Qed.

(** X14. After a transition at most one year layer is on the map: a year
    layer that is on the map is the one registered for the requested
    year. *)
Theorem one_year_layer_on_map (m : Metric) (y : string) (pg : Page) (v : string) :
  v ∈ map_layers (show m y pg) ->
  is_year_var pg v ->
  YEAR_TO_VARNAME !! y = Some v.
Proof.
  intros Hon Hyear. apply show_map_layers in Hon as [[_ Hn] | [Hy _]].
  - contradiction.
  - exact Hy.
Qed.

(** X15. A transition leaves every layer that is not a year layer, such as
    the base tiles, on or off the map as it was. *)
Theorem other_map_layers_kept (m : Metric) (y : string) (pg : Page) (v : string) :
  ~ is_year_var pg v ->
  (v ∈ map_layers (show m y pg) <-> v ∈ map_layers pg).
Proof.
  intros Hn. rewrite show_map_layers. split.
  - intros [[H _] | [Hy Hs]]; [exact H |]. exfalso. apply Hn. exists y. split; assumption.
  - intros H. left. split; assumption.
Qed.

(** X16. A transition changes no layer object other than the one
    registered for the requested year: the colours, handlers and marks of
    all other layers stay as they are. *)
Theorem other_layers_untouched (m : Metric) (y : string) (pg : Page) (v : string) :
  YEAR_TO_VARNAME !! y <> Some v ->
  window (show m y pg) !! v = window pg !! v.
Proof.
  intros Hne.
  destruct (YEAR_TO_VARNAME !! y ≫= layerFromVar pg) as [lyr |] eqn:E.
  - destruct (YEAR_TO_VARNAME !! y) as [v0 |] eqn:Hy; [| discriminate].
    simpl in E. unfold layerFromVar in E.
    rewrite (show_found _ _ m y v0 lyr pg Hy E). simpl.
    apply lookup_insert_ne. intros ->. apply Hne. reflexivity.
  - rewrite (show_missing _ _ m y pg E). simpl. rewrite hideAllYears_window. reflexivity.
Qed.

End TransitionExtras.

Section TransitionWitnesses.

Local Close Scope Q_scope.
Import Controller.

Lemma one_year_layer_on_map_witness :
  demo_years !! "2015" = Some "feature_group_2015".
Proof.
  apply (one_year_layer_on_map demo_legend demo_years med_tip "2015" demo_page
           "feature_group_2015").
  - apply (show_attaches demo_legend demo_years med_tip "2015" "feature_group_2015"
             demo_layer demo_page); reflexivity.
  - exists "2015". split; [reflexivity | eexists; reflexivity].
Defined.

Lemma other_map_layers_kept_witness :
  "tile_layer" ∈ map_layers (showYearAndMetric demo_legend demo_years med_tip "2015"
                               (addLayer "tile_layer" demo_page))
  <-> "tile_layer" ∈ map_layers (addLayer "tile_layer" demo_page).
Proof.
  apply (other_map_layers_kept demo_legend demo_years med_tip "2015"
           (addLayer "tile_layer" demo_page) "tile_layer").
  intros (y & _ & [lyr Hl]). vm_compute in Hl. discriminate.
Defined.

Lemma other_layers_untouched_witness :
  window (showYearAndMetric demo_legend demo_years med_tip "2016" demo_page)
    !! "feature_group_2015"
  = window demo_page !! "feature_group_2015".
Proof.
  apply (other_layers_untouched demo_legend demo_years med_tip "2016" demo_page
           "feature_group_2015").
  intros H. vm_compute in H. discriminate.
Defined.

(** X17. Recolouring a layer for a metric changes, in every feature of the
    layer and at any depth, the property [cur_color] and nothing else; the
    new value is the feature's colour for the metric, or "#cccccc" when
    that colour is absent or empty, so it is never empty. *)
Theorem recolor_features (lyr : Layer) (m : Metric) :
  features (recolorLayerByMetric lyr m)
  = map (fun props : gmap string string =>
           <["cur_color" := js_or (props !! ("color_" ++ metric_name m)) "#cccccc"]> props)
        (features lyr) /\
  forall props : gmap string string,
    props ∈ features (recolorLayerByMetric lyr m) ->
    exists c : string, props !! "cur_color" = Some c /\ c <> "".
Proof.
  assert (E : features (recolorLayerByMetric lyr m)
              = map (fun props : gmap string string =>
                       <["cur_color" := js_or (props !! ("color_" ++ metric_name m)) "#cccccc"]> props)
                    (features lyr)).
  { rewrite recolorLayerByMetric_paint. apply features_paint. }
  split; [exact E |].
  intros props Hin. rewrite E in Hin.
  apply list_elem_of_In, in_map_iff in Hin as (props0 & <- & _).
  eexists. split; [apply lookup_insert_eq |].
  apply js_or_nonempty. discriminate.
Qed.

End TransitionWitnesses.

(** ** The radio buttons and the help overlay *)

Section ControlsExtras.

Local Close Scope Q_scope.
Import Scene Controller Artifact.

Lemma curYear_is_year (year_checked : nat -> bool) :
  exists y : Z, (2015 <= y <= 2022)%Z /\ curYear year_checked = format_d y.
Proof.
  unfold curYear, first_checked, radios, year_radio_values.
  rewrite YEARS_explicit. simpl.
  destruct (year_checked 0); [exists 2015%Z; split; [lia | reflexivity] |].
  destruct (year_checked 1); [exists 2016%Z; split; [lia | reflexivity] |].
  destruct (year_checked 2); [exists 2017%Z; split; [lia | reflexivity] |].
  destruct (year_checked 3); [exists 2018%Z; split; [lia | reflexivity] |].
  destruct (year_checked 4); [exists 2019%Z; split; [lia | reflexivity] |].
  destruct (year_checked 5); [exists 2020%Z; split; [lia | reflexivity] |].
  destruct (year_checked 6); [exists 2021%Z; split; [lia | reflexivity] |].
  destruct (year_checked 7); [exists 2022%Z; split; [lia | reflexivity] |].
  exists 2015%Z. split; [lia | reflexivity].
Qed.

(** X18. Whatever radios are checked, even none, the metric that the
    handler reads is one of the three metrics and the year it reads is a
    key of the year registry; with none checked they are the defaults. *)
Theorem cur_selection_registered (gdfs : Z -> list Row) (get_name : Z -> string)
    (metric_checked year_checked : nat -> bool) :
  exists a : artifact,
    build gdfs get_name = Some a /\
    (exists m : Metric, curMetric metric_checked = metric_name m) /\
    is_Some (YEAR_TO_VARNAME a !! curYear year_checked) /\
    curMetric (fun _ => false) = metric_name init_metric /\
    curYear (fun _ => false) = init_year.
Proof.
  destruct (build_total gdfs get_name) as (a & Ha & _).
  exists a. split; [exact Ha |]. split; [| split; [| split; reflexivity]].
  - unfold curMetric, first_checked, radios, metric_radio_values. simpl.
    destruct (metric_checked 0); [exists avg_tip; reflexivity |].
    destruct (metric_checked 1); [exists med_tip; reflexivity |].
    destruct (metric_checked 2); [exists avg_rate; reflexivity |].
    exists avg_tip. reflexivity.
  - destruct (curYear_is_year year_checked) as (y & Hy & ->).
    destruct (build_inv gdfs get_name a Ha) as (-> & _).
    exists (get_name y). apply registry_lookup.
    exists y. split; [apply YEARS_range; exact Hy | split; reflexivity].
Qed.

(** X19. The help overlay is displayed exactly when the help button was
    clicked and nothing but keys other than Escape came after that click:
    any later click on the close button, the confirm button or the backdrop,
    or an Escape key, hides it.  When the button or the overlay is absent
    from the page, no event ever displays it. *)
Theorem help_displayed_iff (events : list Help.event) :
  (Help.run true events = true <->
   exists before after : list Help.event,
     events = (before ++ Help.click_button :: after)%list /\
     forallb Help.idle after = true) /\
  Help.run false events = false.
Proof.
  split.
  - induction events as [| e events IH] using rev_ind.
    + split; [discriminate |]. intros (before & after & H & _).
      destruct before; discriminate.
    + unfold Help.run in *. rewrite foldl_app. simpl.
      split.
      * intros H. destruct e as [| | | | key]; simpl in H; try discriminate.
        -- exists events, []. split; reflexivity.
        -- destruct (String.eqb key "Escape") eqn:Ek; [discriminate |].
           apply IH in H as (before & after & -> & Hafter).
           exists before, (after ++ [Help.keydown key])%list.
           split; [rewrite <- app_assoc; reflexivity |].
           rewrite forallb_app, Hafter. simpl. rewrite Ek. reflexivity.
      * intros (before & after & H & Hafter).
        destruct after as [| a after _] using rev_ind.
        -- apply app_inj_tail in H as [_ ->]. reflexivity.
        -- rewrite app_comm_cons, app_assoc in H.
           apply app_inj_tail in H as [-> ->].
           rewrite forallb_app in Hafter. apply andb_true_iff in Hafter as [Hafter Ha].
           simpl in Ha. rewrite andb_true_r in Ha.
           destruct a as [| | | | key]; simpl in Ha; try discriminate.
           simpl. apply negb_true_iff in Ha. rewrite Ha.
           apply IH. exists before, after. split; [reflexivity | exact Hafter].
  - unfold Help.run. induction events as [| e events IH] using rev_ind; [reflexivity |].
    rewrite foldl_app. simpl. exact IH.
Qed.

End ControlsExtras.

Section TableExtras.

Local Close Scope Q_scope.
Import Scene.

Lemma group3_nonempty (r : list ascii) : r <> [] -> group3 r <> [].
Proof. destruct r as [| a [| b [| c [| d rest]]]]; intros H; [congruence | discriminate ..]. Qed.

Lemma format_commas_nonempty (n : Z) : format_commas n <> "".
Proof.
  assert (H : forall body : string, body <> "" ->
            string_of_list_ascii (rev (group3 (rev (list_ascii_of_string body)))) <> "").
  { intros body Hb E.
    apply (f_equal list_ascii_of_string) in E.
    rewrite list_ascii_of_string_of_list_ascii in E. simpl in E.
    apply (f_equal (@rev ascii)) in E. rewrite rev_involutive in E. simpl in E.
    apply group3_nonempty in E; [exact E |].
    intros E'. apply (f_equal (@rev ascii)) in E'. rewrite rev_involutive in E'.
    simpl in E'. destruct body; [congruence | discriminate]. }
  unfold format_commas.
  assert (Hd : digits 10 (Z.abs n) <> "").
  { pose proof (digits_nonempty 10 (Z.abs n)) as Hl. intros E. rewrite E in Hl.
    simpl in Hl. lia. }
  destruct (n <? 0)%Z; [discriminate |]. apply H. exact Hd.
Qed.

(** X20. The trip-count texts of a year's table: the build fails on them
    exactly when the table has neither a [num_trips] nor a [num_tips]
    column; otherwise there is one text per row of the chosen column, never
    empty, and a missing count is written as a dash. *)
Theorem num_trips_s_rows (gdf : gmap string (list (option Q))) :
  (num_trips_s gdf = None <->
   gdf !! "num_trips" = None /\ gdf !! "num_tips" = None) /\
  forall strs : list string,
    num_trips_s gdf = Some strs ->
    exists col : list (option Q),
      gdf !! count_col gdf = Some col /\
      length strs = length col /\
      Forall (fun s => s <> "") strs /\
      forall i : nat, col !! i = Some None -> strs !! i = Some "—".
Proof.
  split.
  - unfold num_trips_s, count_col.
    destruct (gdf !! "num_trips") as [c1 |] eqn:E1.
    + rewrite bool_decide_eq_true_2 by eauto. rewrite E1. simpl.
      split; [discriminate | intros [H _]; discriminate].
    + rewrite bool_decide_eq_false_2 by (intros [? ?]; discriminate).
      destruct (gdf !! "num_tips") as [c2 |] eqn:E2; simpl.
      * split; [discriminate | intros [_ H]; discriminate].
      * split; [intros _; split; reflexivity | reflexivity].
  - intros strs H. unfold num_trips_s in H.
    destruct (gdf !! count_col gdf) as [col |]; [| discriminate].
    simpl in H. injection H as <-. exists col.
    split; [reflexivity |]. split; [apply length_map |]. split.
    + apply Forall_map, Forall_forall. intros [v |] _; simpl.
      * apply format_commas_nonempty.
      * discriminate.
    + intros i Hi. change (map ?f ?l) with (f <$> l).
      rewrite list_lookup_fmap, Hi. reflexivity.
Qed.

End TableExtras.

Section LegendShape.

Local Open Scope Q_scope.
Import Scene Legend.



End LegendShape.
